(** * PMTGain: single-photoelectron feature extraction

    A shallow embedding of [PDSCali::PMTGain] from
    [sbndcode/PDSCalibration/PMTGainAna_module.cc]: the noise analysis, the
    threshold pulse scan, the average-SPE accumulation, the amplitude
    extraction, the integrals and the waveform loop of [PMTGain::analyze],
    the normalisation of [PMTGain::endJob], the PMT index the constructor
    builds and [PMTGain::GetPMTIndex].

    Conventions of the embedding.
    - A C++ [double] that holds a sample, a sum or a threshold is a
      primitive binary64 [float]; its arithmetic is IEEE arithmetic.
    - [int], [Int_t] and [unsigned int] values are integers in [Z].  The
      [double] variables [pulse_t_start], [pulse_t_end], [pulse_t_peak] and
      the vectors [pulse_t_peak_v], [wvf_spet] only ever hold values
      assigned from the [int] [counter] (or the literal 0); every [int] is
      exactly a binary64 value and so are the differences the code forms,
      hence they are kept as the integer they hold.
    - [v[i]] on a [std::vector] outside its bounds is undefined behaviour,
      [v.at(i)] throws [std::out_of_range]; both are results of the
      [outcome] monad below.
    - A [for] loop over an integer interval is a fold over the list of the
      indices it visits.
    - A waveform has fewer than 2^31 samples: its length is held in an
      [Int_t]. *)

From Stdlib Require Import ZArith List Bool Lia QArith Sorted.
From Stdlib Require Import Floats.
From Stdlib Require Uint63 String.
Import ListNotations.
Local Open Scope Z_scope.

(** ** Outcomes of a computation on vectors *)

Inductive outcome (A : Type) : Type :=
| Ok (a : A)
| Throws        (* std::out_of_range raised by vector::at *)
| Undefined.    (* operator[] outside the vector *)

Arguments Ok {A} a.
Arguments Throws {A}.
Arguments Undefined {A}.

Definition bind {A B : Type} (m : outcome A) (k : A -> outcome B) : outcome B :=
  match m with
  | Ok a => k a
  | Throws => Throws
  | Undefined => Undefined
  end.

Notation "x <- m ;; k" := (bind m (fun x => k))
  (at level 61, m at next level, right associativity).

Definition lookupZ {A : Type} (v : list A) (i : Z) : option A :=
  if i <? 0 then None else nth_error v (Z.to_nat i).

(** [v[i]] *)
Definition index {A : Type} (v : list A) (i : Z) : outcome A :=
  match lookupZ v i with Some a => Ok a | None => Undefined end.

(** [v.at(i)] *)
Definition at_ {A : Type} (v : list A) (i : Z) : outcome A :=
  match lookupZ v i with Some a => Ok a | None => Throws end.

Definition size {A : Type} (v : list A) : Z := Z.of_nat (length v).

(** ** Integer intervals visited by the loops *)

Fixpoint zseq (lo : Z) (n : nat) : list Z :=
  match n with
  | O => []
  | S n' => lo :: zseq (lo + 1) n'
  end.

(** [for (int i = lo; i <= hi; i++)] *)
Definition range_le (lo hi : Z) : list Z := zseq lo (Z.to_nat (hi - lo + 1)).

(** [for (int i = lo; i < hi; i++)] *)
Definition range_lt (lo hi : Z) : list Z := zseq lo (Z.to_nat (hi - lo)).

(** Monadic left fold: the body of a loop run over the indices it visits. *)
Fixpoint foldM {A B : Type} (body : B -> A -> outcome B) (l : list A) (acc : B)
  : outcome B :=
  match l with
  | [] => Ok acc
  | x :: l' => acc' <- body acc x ;; foldM body l' acc'
  end.

(** ** Conversions between [int] and [double] *)

(** [(double) z] for an integer [z]. *)
Definition int_to_double (z : Z) : float :=
  if z <? 0 then PrimFloat.opp (PrimFloat.of_uint63 (Uint63.of_Z (- z)))
  else PrimFloat.of_uint63 (Uint63.of_Z z).

(** [Int_t n = x] for a double [x]: truncation toward zero; the conversion
    is undefined when the truncated value is not an [int] (NaN, infinities
    and magnitudes from 2^31). *)
Definition double_to_int (x : float) : outcome Z :=
  match Prim2SF x with
  | S754_zero _ => Ok 0
  | S754_finite s m e =>
      let mag := if 0 <=? e then Z.pos m * 2 ^ e else Z.pos m / 2 ^ (- e) in
      let v := if s then - mag else mag in
      if (- 2 ^ 31 <=? v) && (v <? 2 ^ 31) then Ok v else Undefined
  | S754_infinity _ => Undefined
  | S754_nan => Undefined
  end.

(** ** Configuration (the fhicl parameters read by the constructor) *)

Record Config : Type := {
  fLowbin : Z;
  fHibin : Z;
  fNstdev : Z;
  fSpe_region_start : Z;
  fNbmax_factor : float;
  fNbmin_factor : float;
  fN2bmin_factor : float;
  fCut : bool;
  fDo_avgspe : bool;
  fDo_amp : bool
}.

(** [NBINS=fHibin+fLowbin+1] *)
Definition NBINS (cfg : Config) : Z := fHibin cfg + fLowbin cfg + 1.

(** ** Pulse scan (lines 425-483 of [analyze]) *)

Module Scan.

Record State : Type := {
  fire : bool;
  counter : Z;
  peak_count : Z;
  pulse_peak : float;
  pulse_t_start : Z;
  pulse_t_end : Z;
  pulse_t_peak : Z;
  pulse_t_peak_v : list Z;
  failed : Z
}.

(** What one iteration of the scan did; [Closed] carries the values of
    [pulse_t_start], [pulse_t_end] and [pulse_t_peak] that the end-of-pulse
    branch holds just before it zeroes them, and whether it pushed the
    peak. *)
Inductive Event : Type :=
| Opened (at_index start : Z)
| Closed (start end_ peak : Z) (pushed : bool)
| Tracked
| Idle.

(** State on entry to the loop: lines 425-435; [failed] holds what the
    waveforms before this one left in it. *)
Definition init (cfg : Config) (failed0 : Z) : State :=
  {| fire := false; counter := fSpe_region_start cfg; peak_count := 0;
     pulse_peak := 0%float; pulse_t_start := 0; pulse_t_end := 0;
     pulse_t_peak := 0; pulse_t_peak_v := []; failed := failed0 |}.

(** Lines 441-471: the three-way branch on the sample [adc]. *)
Definition branch (wvfm_size : Z) (start_threshold end_threshold adc : float)
  (s : State) : State * Event :=
  if negb (fire s) && (start_threshold <? adc)%float then
    let start := if counter s - 1 >? 0 then counter s - 1 else counter s in
    ({| fire := true; counter := counter s; peak_count := peak_count s;
        pulse_peak := pulse_peak s; pulse_t_start := start;
        pulse_t_end := pulse_t_end s; pulse_t_peak := pulse_t_peak s;
        pulse_t_peak_v := pulse_t_peak_v s; failed := failed s |},
     Opened (counter s) start)
  else if fire s && (adc <? end_threshold)%float then
    let end_ := if counter s <? wvfm_size then counter s else counter s - 1 in
    let pushed := end_ - pulse_t_start s >? 2 in
    ({| fire := false; counter := counter s;
        peak_count := if pushed then peak_count s + 1 else peak_count s;
        pulse_peak := 0%float; pulse_t_start := 0; pulse_t_end := 0;
        pulse_t_peak := 0;
        pulse_t_peak_v := if pushed then pulse_t_peak_v s ++ [pulse_t_peak s]
                          else pulse_t_peak_v s;
        failed := failed s |},
     Closed (pulse_t_start s) end_ (pulse_t_peak s) pushed)
  else if fire s then
    if (pulse_peak s <? adc)%float then
      ({| fire := fire s; counter := counter s; peak_count := peak_count s;
          pulse_peak := adc; pulse_t_start := pulse_t_start s;
          pulse_t_end := pulse_t_end s; pulse_t_peak := counter s;
          pulse_t_peak_v := pulse_t_peak_v s; failed := failed s |},
       Tracked)
    else (s, Tracked)
  else (s, Idle).

(** Lines 473-475: [counter++], then the test of [peak_count] against 200.
    The [continue] it ends with is the last statement of the body of the
    [for] over [i]: it moves on to the next sample. *)
Definition finish (s : State) : State :=
  {| fire := fire s; counter := counter s + 1; peak_count := peak_count s;
     pulse_peak := pulse_peak s; pulse_t_start := pulse_t_start s;
     pulse_t_end := pulse_t_end s; pulse_t_peak := pulse_t_peak s;
     pulse_t_peak_v := pulse_t_peak_v s;
     failed := if peak_count s =? 200 then failed s + 1 else failed s |}.

(** One iteration: [adc = wvfm[counter]], the branch, the tail. *)
Definition step (wvfm : list float) (thresh : float) (s : State)
  : outcome (State * Event) :=
  adc <- index wvfm (counter s) ;;
  let (s', ev) := branch (size wvfm) thresh thresh adc s in
  Ok (finish s', ev).

Fixpoint loop (wvfm : list float) (thresh : float) (n : nat) (s : State)
  : outcome (State * list Event) :=
  match n with
  | O => Ok (s, [])
  | S n' =>
      r <- step wvfm thresh s ;;
      r' <- loop wvfm thresh n' (fst r) ;;
      Ok (fst r', snd r :: snd r')
  end.

(** Number of iterations of
    [for (unsigned int i=fSpe_region_start; i<wvfm.size(); i++)]: the
    [int] start is converted to [unsigned int]. *)
Definition iterations (cfg : Config) (wvfm : list float) : nat :=
  Z.to_nat (size wvfm - fSpe_region_start cfg mod 2 ^ 32).

(** Lines 479-483: a pulse still open at the end of the window is dropped. *)
Definition flush (s : State) : State :=
  if fire s then
    {| fire := false; counter := counter s; peak_count := peak_count s;
       pulse_peak := 0%float; pulse_t_start := 0; pulse_t_end := 0;
       pulse_t_peak := 0; pulse_t_peak_v := pulse_t_peak_v s;
       failed := failed s |}
  else s.

Definition run (cfg : Config) (wvfm : list float) (thresh : float) (failed0 : Z)
  : outcome (State * list Event) :=
  r <- loop wvfm thresh (iterations cfg wvfm) (init cfg failed0) ;;
  Ok (flush (fst r), snd r).

End Scan.

(** ** Noise analysis (lines 347-417 of [analyze])

    The raw waveform is a [raw::OpDetWaveform], a vector of ADC counts;
    each count enters the analysis through [(double)wvf[i]]. *)

Module Noise.

(** Lines 351-360: the lowest sample and the first bin that holds it. *)
Definition lowest_step (acc : float * Z) (ix : Z) (x : Z) : float * Z :=
  if (int_to_double x <? fst acc)%float then (int_to_double x, ix) else acc.

Fixpoint lowest_loop (wvf : list Z) (ix : Z) (acc : float * Z) : float * Z :=
  match wvf with
  | [] => acc
  | x :: wvf' => lowest_loop wvf' (ix + 1) (lowest_step acc ix x)
  end.

(** [highestval] and [highestbin] after the loop. *)
Definition highest (wvf : list Z) : float * Z :=
  lowest_loop wvf 0 (999999%float, -1).

(** Lines 366-368. *)
Record Bins : Type := {
  noisebinmin : Z;
  noisebinmax : Z;
  noisebin2min : Z
}.

Definition bins (cfg : Config) (wvf : list Z) : outcome Bins :=
  let highestbin := snd (highest wvf) in
  let wvf_nbins := size wvf in
  bmin <- double_to_int (fNbmin_factor cfg * int_to_double highestbin)%float ;;
  bmax <- double_to_int (fNbmax_factor cfg * int_to_double highestbin)%float ;;
  b2min <- double_to_int (fN2bmin_factor cfg * int_to_double wvf_nbins)%float ;;
  Ok {| noisebinmin := bmin; noisebinmax := bmax; noisebin2min := b2min |}.

(** Indices visited by the loops of lines 372 and 378 (the mean). *)
Definition mean_region1 (b : Bins) : list Z :=
  range_le (noisebinmin b) (noisebinmax b).

Definition mean_region2 (b : Bins) (wvf_nbins : Z) : list Z :=
  range_le (noisebin2min b) wvf_nbins.

(** Indices visited by the loops of lines 403 and 408 (the variance). *)
Definition var_region1 (b : Bins) : list Z :=
  range_le (noisebinmin b) (noisebinmax b).

Definition var_region2 (b : Bins) (wvf_nbins : Z) : list Z :=
  range_lt (noisebin2min b - 1) wvf_nbins.

(** Body of the mean loops: [val = (double)wvf[i]; total += val; m++]. *)
Definition total_body (wvf : list Z) (acc : float * Z) (i : Z)
  : outcome (float * Z) :=
  x <- index wvf i ;;
  Ok ((fst acc + int_to_double x)%float, snd acc + 1).

(** [total] and [m] after both mean loops. *)
Definition total_m (wvf : list Z) (b : Bins) : outcome (float * Z) :=
  acc <- foldM (total_body wvf) (mean_region1 b) (0%float, 0) ;;
  foldM (total_body wvf) (mean_region2 b (size wvf)) acc.

(** Lines 387-390: [wvfm.at(i)=mean-(double)wvf[i]]. *)
Definition subtract (mean : float) (wvf : list Z) : list float :=
  map (fun x => (mean - int_to_double x)%float) wvf.

(** Body of the variance loops: [val = wvfm.at(i); totalvar += val*val]. *)
Definition var_body (wvfm : list float) (totalvar : float) (i : Z)
  : outcome float :=
  val <- at_ wvfm i ;;
  Ok (totalvar + val * val)%float.

Definition totalvar (wvfm : list float) (b : Bins) : outcome float :=
  acc <- foldM (var_body wvfm) (var_region1 b) 0%float ;;
  foldM (var_body wvfm) (var_region2 b (size wvfm)) acc.

Record Result : Type := {
  mean : float;
  wvfm : list float;
  stdev : float;
  thresh : float
}.

(** Lines 347-417 in sequence. *)
Definition analysis (cfg : Config) (wvf : list Z) : outcome Result :=
  b <- bins cfg wvf ;;
  tm <- total_m wvf b ;;
  let mean := (fst tm / int_to_double (snd tm))%float in
  let wvfm := subtract mean wvf in
  tv <- totalvar wvfm b ;;
  let stdev := PrimFloat.sqrt (tv / int_to_double (snd tm)) in
  _ <- at_ wvfm (snd (highest wvf)) ;;
  Ok {| mean := mean; wvfm := wvfm; stdev := stdev;
        thresh := (stdev * int_to_double (fNstdev cfg))%float |}.

End Noise.

(** Lines 347-483: the noise analysis followed by the pulse scan of the
    baseline-referenced waveform at the threshold it found. *)
Definition detect (cfg : Config) (wvf : list Z) (failed0 : Z)
  : outcome (Scan.State * list Scan.Event) :=
  r <- Noise.analysis cfg wvf ;;
  Scan.run cfg (Noise.wvfm r) (Noise.thresh r) failed0.

(** ** Histograms

    ROOT's [TH1D] is not part of the repository.  [avgspe] is used through
    its array of cells only, cell 0 the underflow, cells 1 to [NBINS] the
    bins and cell [NBINS]+1 the overflow; the four members used are taken as
    ROOT documents them.  [amp] is used through [Fill] only and is kept as
    the sequence of the values filled. *)

Module TH1D.

Definition t : Type := list float.

(** A histogram of [nbins] bins, all cells zero. *)
Definition make (nbins : Z) : t := repeat 0%float (Z.to_nat (nbins + 2)).

(** [GetSize()]: the number of cells, underflow and overflow included. *)
Definition GetSize (h : t) : Z := size h.

Fixpoint update (h : t) (n : nat) (f : float -> float) : t :=
  match h, n with
  | [], _ => []
  | x :: h', O => f x :: h'
  | x :: h', S n' => x :: update h' n' f
  end.

(** [AddBinContent(bin, w)]: [fArray[bin] += w]; the loop of line 531
    names the bins 1 to [NBINS] only, which are cells of [avgspe]. *)
Definition AddBinContent (h : t) (bin : Z) (w : float) : t :=
  if (0 <=? bin) && (bin <? GetSize h)
  then update h (Z.to_nat bin) (fun c => (c + w)%float)
  else h.

(** [GetBinContent(bin)]: a bin number outside the cells is read as the
    underflow or the overflow cell. *)
Definition GetBinContent (h : t) (bin : Z) : float :=
  let bin' := if bin <? 0 then 0
              else if GetSize h <=? bin then GetSize h - 1 else bin in
  nth (Z.to_nat bin') h 0%float.

(** [SetBinContent(bin, content)]: a bin number outside the cells is
    ignored. *)
Definition SetBinContent (h : t) (bin : Z) (content : float) : t :=
  if (0 <=? bin) && (bin <? GetSize h)
  then update h (Z.to_nat bin) (fun _ => content)
  else h.

End TH1D.

(** ** One calibration slot

    [avgspe], [amp] and [navspes] are vectors that the constructor fills
    together, one entry per selected PMT (lines 208-231), and that
    [analyze] and [endJob] read at one common index; a slot is the entry
    of the three at that index. *)

Record Slot : Type := {
  avgspe : TH1D.t;
  amp : list float;
  navspes : Z
}.

(** The slot the constructor creates. *)
Definition new_slot (cfg : Config) : Slot :=
  {| avgspe := TH1D.make (NBINS cfg); amp := []; navspes := 0 |}.

(** ** Average SPE shape (lines 515-539 of [analyze]) *)

Module Shape.

(** Line 518: [peakbin-fLowbin <0 || peakbin+fHibin>wvf_nbins]. *)
Definition out_of_bounds (cfg : Config) (wvf_nbins peakbin : Z) : bool :=
  (peakbin - fLowbin cfg <? 0) || (peakbin + fHibin cfg >? wvf_nbins).

(** The double constant [0.1], exactly. *)
Definition tenth : Q := 3602879701896397 # 36028797018963968.

(** [separation<0.1] for a separation that is a whole number. *)
Definition below_tenth (separation : Z) : bool :=
  negb (Qle_bool tenth (inject_Z separation)).

(** Lines 522-526: the loop over [l]. *)
Definition veto_body (ti : Z) (selected : bool) (tl : Z) : bool :=
  let separation := ti - tl in
  if below_tenth separation && (separation >? 0) then false else selected.

Definition veto_loop (wvf_spet : list Z) (ti : Z) : bool :=
  fold_left (veto_body ti) wvf_spet true.

(** Lines 522-527: [selected] when line 528 tests it. *)
Definition selected (cfg : Config) (wvf_spet : list Z) (ti : Z) : bool :=
  if negb (fCut cfg) then true else veto_loop wvf_spet ti.

(** Lines 531-534: the body of the loop over [j]. *)
Definition add_body (cfg : Config) (wvfm : list float) (peakbin : Z)
  (h : TH1D.t) (j : Z) : outcome TH1D.t :=
  le_bin <- index wvfm (peakbin - fLowbin cfg + j) ;;
  Ok (TH1D.AddBinContent h j le_bin).

Definition add_pulse (cfg : Config) (wvfm : list float) (peakbin : Z)
  (h : TH1D.t) : outcome TH1D.t :=
  foldM (add_body cfg wvfm peakbin) (range_le 1 (NBINS cfg)) h.

(** Lines 517-536: the body of the loop over the peaks. *)
Definition peak_body (cfg : Config) (wvfm : list float) (wvf_spet : list Z)
  (s : Slot) (ti : Z) : outcome Slot :=
  let peakbin := ti in
  if out_of_bounds cfg (size wvfm) peakbin then Ok s
  else if selected cfg wvf_spet ti then
    h <- add_pulse cfg wvfm peakbin (avgspe s) ;;
    Ok {| avgspe := h; amp := amp s; navspes := navspes s + 1 |}
  else Ok s.

Definition stage (cfg : Config) (wvfm : list float) (wvf_spet : list Z)
  (s : Slot) : outcome Slot :=
  if fDo_avgspe cfg then foldM (peak_body cfg wvfm wvf_spet) wvf_spet s
  else Ok s.

End Shape.

(** ** Amplitudes (lines 542-549 of [analyze]) *)

Module Amplitude.

(** Lines 544-547: the body of the loop over the peaks. *)
Definition peak_body (cfg : Config) (wvfm : list float) (s : Slot) (ti : Z)
  : outcome Slot :=
  let peakbin := ti in
  peakheight <- at_ wvfm peakbin ;;
  Ok {| avgspe := avgspe s; amp := amp s ++ [peakheight];
        navspes := if negb (fDo_avgspe cfg) then navspes s + 1
                   else navspes s |}.

Definition stage (cfg : Config) (wvfm : list float) (wvf_spet : list Z)
  (s : Slot) : outcome Slot :=
  if fDo_amp cfg then foldM (peak_body cfg wvfm) wvf_spet s else Ok s.

End Amplitude.

(** ** Normalisation at the end of the job ([endJob], lines 722-737) *)

Module EndJob.

(** Lines 731-732 for one [ix]. *)
Definition normalise_bin (navspes_ihist : Z) (h : TH1D.t) (ix : Z) : TH1D.t :=
  let le_bin := TH1D.GetBinContent h ix in
  TH1D.SetBinContent h ix (le_bin / int_to_double navspes_ihist)%float.

(** Lines 729-735 for one [ihist]. *)
Definition normalise (s : Slot) : Slot :=
  {| avgspe := fold_left (normalise_bin (navspes s))
                         (range_le 1 (TH1D.GetSize (avgspe s))) (avgspe s);
     amp := amp s; navspes := navspes s |}.

Definition endJob (slots : list Slot) : list Slot := map normalise slots.

End EndJob.

(** ** One waveform through [analyze] (lines 347-549 and 680-683)

    [success] and [failed] are the tallies of the call of [analyze], the
    slot is that of the waveform's channel ([pmt_counter]).  The integral
    analysis of lines 554-678 ([do_integ]) is not part of this function:
    this is the body of the waveform loop for a job that has it off;
    [Event.body] is the body with it. *)

Module Analyze.

Record Tally : Type := {
  success : Z;
  failed : Z
}.

Definition analyze_waveform (cfg : Config) (wvf : list Z) (slot : Slot)
  (tally : Tally) : outcome (Slot * Tally) :=
  r <- Noise.analysis cfg wvf ;;
  sc <- Scan.run cfg (Noise.wvfm r) (Noise.thresh r) (failed tally) ;;
  let nspe := Scan.peak_count (fst sc) in
  let wvf_spet := Scan.pulse_t_peak_v (fst sc) in
  if nspe =? 0 then
    Ok (slot, {| success := success tally; failed := Scan.failed (fst sc) + 1 |})
  else
    slot1 <- Shape.stage cfg (Noise.wvfm r) wvf_spet slot ;;
    slot2 <- Amplitude.stage cfg (Noise.wvfm r) wvf_spet slot1 ;;
    Ok (slot2, {| success := success tally + 1; failed := Scan.failed (fst sc) |}).

End Analyze.

(** ** Integrals of the SPEs (lines 554-678 of [analyze])

    The three parameters that only the integral analysis reads are kept in
    a record of their own, and so are the six histograms [integ0] to
    [integ5] of a slot, each kept as the sequence of the values filled. *)

Record IntegConfig : Type := {
  fManual_bound_hi : Z;
  fManual_bound_lo : Z;
  fDo_integ : bool
}.

Record Integs : Type := {
  integ0 : list float;
  integ1 : list float;
  integ2 : list float;
  integ3 : list float;
  integ4 : list float;
  integ5 : list float
}.

Definition no_integs : Integs :=
  {| integ0 := []; integ1 := []; integ2 := []; integ3 := []; integ4 := [];
     integ5 := [] |}.

Module Integral.

(** The bound searches of lines 565-575 and 589-597,
    [while (val>thr) { k++; val = wvfm.at(peakbin+dir*k); }], entered with
    [k] steps taken and [val] the last value read; [dir] is -1 for [ilo]
    and 1 for [ihi].  Each pass reads one bin further from the peak and
    [at] throws past either end, so a fuel of the number of samples is
    never used up ([search_fuel] below). *)
Fixpoint search (wvfm : list float) (thr : float) (peakbin dir : Z)
  (fuel : nat) (k : Z) (val : float) : outcome Z :=
  if (thr <? val)%float then
    match fuel with
    | O => Throws
    | S fuel' =>
        val' <- at_ wvfm (peakbin + dir * (k + 1)) ;;
        search wvfm thr peakbin dir fuel' (k + 1) val'
    end
  else Ok k.

(** The bound searches of lines 630-640 and 651-661,
    [while (val>thr) { k++; val = wvfm.at(peakbin+dir*k) - bsl;
                       if (k==50) {break;} }];
    the fuel is the 50 passes the [break] allows. *)
Fixpoint search_capped (wvfm : list float) (thr bsl : float) (peakbin dir : Z)
  (fuel : nat) (k : Z) (val : float) : outcome Z :=
  if (thr <? val)%float then
    match fuel with
    | O => Ok k
    | S fuel' =>
        v <- at_ wvfm (peakbin + dir * (k + 1)) ;;
        if k + 1 =? 50 then Ok (k + 1)
        else search_capped wvfm thr bsl peakbin dir fuel' (k + 1) (v - bsl)%float
    end
  else Ok k.

(** [for (int j=ilo*-1; j<=ihi; j++) { integral += wvfm.at(peakbin+j) - bsl; }]
    from [integral = 0]. *)
Definition sum_body (wvfm : list float) (bsl : float) (peakbin : Z)
  (integral : float) (j : Z) : outcome float :=
  le_bin <- at_ wvfm (peakbin + j) ;;
  Ok (integral + (le_bin - bsl))%float.

Definition sum (wvfm : list float) (bsl : float) (peakbin ilo ihi : Z)
  : outcome float :=
  foldM (sum_body wvfm bsl peakbin) (range_le (ilo * -1) ihi) 0%float.

(** The same loop without a local baseline (lines 579-583, 600-603,
    610-613): [integral += wvfm.at(peakbin+j)]. *)
Definition plain_sum_body (wvfm : list float) (peakbin : Z)
  (integral : float) (j : Z) : outcome float :=
  le_bin <- at_ wvfm (peakbin + j) ;;
  Ok (integral + le_bin)%float.

Definition plain_sum (wvfm : list float) (peakbin ilo ihi : Z) : outcome float :=
  foldM (plain_sum_body wvfm peakbin) (range_le (ilo * -1) ihi) 0%float.

(** Lines 563-584 and 587-604: bounds searched at the level [thr], one
    taken off each, and the sum between them. *)
Definition plain_mode (wvfm : list float) (thr : float) (peakbin : Z)
  : outcome float :=
  val <- at_ wvfm peakbin ;;
  ilo <- search wvfm thr peakbin (-1) (length wvfm) 0 val ;;
  val <- at_ wvfm peakbin ;;
  ihi <- search wvfm thr peakbin 1 (length wvfm) 0 val ;;
  plain_sum wvfm peakbin (ilo - 1) (ihi - 1).

(** Lines 628-647 and 649-668: the same on the samples less [bsl], each
    search stopped at 50 steps. *)
Definition local_mode (wvfm : list float) (thr bsl : float) (peakbin : Z)
  : outcome float :=
  val <- at_ wvfm peakbin ;;
  ilo <- search_capped wvfm thr bsl peakbin (-1) 50 0 (val - bsl)%float ;;
  val <- at_ wvfm peakbin ;;
  ihi <- search_capped wvfm thr bsl peakbin 1 50 0 (val - bsl)%float ;;
  sum wvfm bsl peakbin (ilo - 1) (ihi - 1).

(** Lines 557-615: the body of the first loop over the peaks. *)
Definition plain_body (cfg : Config) (icfg : IntegConfig) (wvfm : list float)
  (stdev : float) (acc : Slot * Integs) (ti : Z) : outcome (Slot * Integs) :=
  let peakbin := ti in
  if Shape.out_of_bounds cfg (size wvfm) peakbin then Ok acc
  else
    i0 <- plain_mode wvfm 10%float peakbin ;;
    i1 <- plain_mode wvfm (stdev * int_to_double (fNstdev cfg))%float peakbin ;;
    i2 <- plain_sum wvfm peakbin (fManual_bound_lo icfg) (fManual_bound_hi icfg) ;;
    let s := fst acc in
    let g := snd acc in
    Ok ({| avgspe := avgspe s; amp := amp s;
           navspes := if negb (fDo_avgspe cfg) && negb (fDo_amp cfg)
                      then navspes s + 1 else navspes s |},
        {| integ0 := integ0 g ++ [i0]; integ1 := integ1 g ++ [i1];
           integ2 := integ2 g ++ [i2]; integ3 := integ3 g;
           integ4 := integ4 g; integ5 := integ5 g |}).

(** Lines 620-676: the body of the second loop over the peaks. *)
Definition local_body (cfg : Config) (icfg : IntegConfig) (wvfm : list float)
  (stdev : float) (acc : Slot * Integs) (ti : Z) : outcome (Slot * Integs) :=
  let peakbin := ti in
  if Shape.out_of_bounds cfg (size wvfm) peakbin then Ok acc
  else
    vallow <- at_ wvfm (peakbin - 50) ;;
    valhi <- at_ wvfm (peakbin + 50) ;;
    let bsl := ((vallow + valhi) / 2)%float in
    i3 <- local_mode wvfm 0%float bsl peakbin ;;
    i4 <- local_mode wvfm (stdev * int_to_double (fNstdev cfg))%float bsl peakbin ;;
    i5 <- sum wvfm bsl peakbin (fManual_bound_lo icfg) (fManual_bound_hi icfg) ;;
    let g := snd acc in
    Ok (fst acc,
        {| integ0 := integ0 g; integ1 := integ1 g; integ2 := integ2 g;
           integ3 := integ3 g ++ [i3]; integ4 := integ4 g ++ [i4];
           integ5 := integ5 g ++ [i5] |}).

(** Lines 554-678. *)
Definition stage (cfg : Config) (icfg : IntegConfig) (wvfm : list float)
  (stdev : float) (wvf_spet : list Z) (acc : Slot * Integs)
  : outcome (Slot * Integs) :=
  if fDo_integ icfg then
    acc1 <- foldM (plain_body cfg icfg wvfm stdev) wvf_spet acc ;;
    foldM (local_body cfg icfg wvfm stdev) wvf_spet acc1
  else Ok acc.

End Integral.

(** ** The PMT index ([PMTGain::PMTGain], lines 167-198, and
       [GetPMTIndex], lines 704-714)

    [pdMap] is not part of the repository: the test
    [pdMap.isPDType(iPDS, "xarapuca_vuv") || pdMap.isPDType(iPDS, "xarapuca_vis")]
    of line 177 is a parameter. *)

Module Index.

Record Counters : Type := {
  PMTIndexingVector : list Z;
  tot_pmt_counter : Z;
  sel_pmt_counter : Z
}.

Section Constructor.

Variable is_xarapuca : Z -> bool.
Variable fUseAllPMTs : bool.
Variable fSelectedPMTs : list Z.

(** Line 184:
    [fUseAllPMTs || (!fUseAllPMTs && fSelectedPMTs[sel_pmt_counter]==tot_pmt_counter)]. *)
Definition wanted (c : Counters) : outcome bool :=
  if fUseAllPMTs then Ok true
  else
    x <- index fSelectedPMTs (sel_pmt_counter c) ;;
    Ok (x =? tot_pmt_counter c).

(** Lines 177-195 for one [iPDS]; the boolean tells whether the [break]
    of line 194 was taken. *)
Definition body (c : Counters) (iPDS : Z) : outcome (Counters * bool) :=
  if is_xarapuca iPDS then Ok (c, false)
  else
    w <- wanted c ;;
    let c1 :=
      if w then
        {| PMTIndexingVector := PMTIndexingVector c ++ [iPDS];
           tot_pmt_counter := tot_pmt_counter c;
           sel_pmt_counter := sel_pmt_counter c + 1 |}
      else c in
    let c2 :=
      {| PMTIndexingVector := PMTIndexingVector c1;
         tot_pmt_counter := tot_pmt_counter c1 + 1;
         sel_pmt_counter := sel_pmt_counter c1 |} in
    Ok (c2, negb fUseAllPMTs && (size fSelectedPMTs <=? sel_pmt_counter c2)).

Fixpoint loop (l : list Z) (c : Counters) : outcome Counters :=
  match l with
  | [] => Ok c
  | iPDS :: l' =>
      r <- body c iPDS ;;
      if snd r then Ok (fst r) else loop l' (fst r)
  end.

(** [NPDS=312] *)
Definition NPDS : Z := 312.

(** Lines 172-198: [PMTIndexingVector] when the constructor is done with
    it. *)
Definition build : outcome (list Z) :=
  c <- loop (range_lt 0 NPDS)
            {| PMTIndexingVector := []; tot_pmt_counter := 0;
               sel_pmt_counter := 0 |} ;;
  Ok (PMTIndexingVector c).

End Constructor.

(** Lines 708-712, from the index [ix] on. *)
Fixpoint GetPMTIndex_from (v : list Z) (ix : Z) (wvf_ch : Z) : Z :=
  match v with
  | [] => -1
  | x :: v' => if x =? wvf_ch then ix else GetPMTIndex_from v' (ix + 1) wvf_ch
  end.

Definition GetPMTIndex (v : list Z) (wvf_ch : Z) : Z :=
  GetPMTIndex_from v 0 wvf_ch.

(** Lines 208-231: one slot, with its six integral histograms, for each
    entry of [PMTIndexingVector]. *)
Definition make_slots (cfg : Config) (v : list Z) : list (Slot * Integs) :=
  map (fun _ => (new_slot cfg, no_integs)) v.

End Index.

(** ** The waveform loop of [analyze] (lines 284-684)

    A waveform is its channel number and its ADC counts.  The detector
    type of a channel comes from [pdMap.pdType], a parameter.  The
    per-waveform histogram of lines 307-326 and the printouts are output
    only and are left out.  A job holds as many slots as
    [PMTIndexingVector] has entries. *)

Module Event.

Record Waveform : Type := {
  ChannelNumber : Z;
  adcs : list Z
}.

Record State : Type := {
  slots : list (Slot * Integs);
  tally : Analyze.Tally
}.

(** Lines 347-683: the body of the loop for a waveform that is not
    skipped, on the slot of its channel. *)
Definition body (cfg : Config) (icfg : IntegConfig) (wvf : list Z)
  (acc : Slot * Integs) (t : Analyze.Tally)
  : outcome ((Slot * Integs) * Analyze.Tally) :=
  r <- Noise.analysis cfg wvf ;;
  sc <- Scan.run cfg (Noise.wvfm r) (Noise.thresh r) (Analyze.failed t) ;;
  let nspe := Scan.peak_count (fst sc) in
  let wvf_spet := Scan.pulse_t_peak_v (fst sc) in
  if nspe =? 0 then
    Ok (acc, {| Analyze.success := Analyze.success t;
                Analyze.failed := Scan.failed (fst sc) + 1 |})
  else
    slot1 <- Shape.stage cfg (Noise.wvfm r) wvf_spet (fst acc) ;;
    slot2 <- Amplitude.stage cfg (Noise.wvfm r) wvf_spet slot1 ;;
    acc' <- Integral.stage cfg icfg (Noise.wvfm r) (Noise.stdev r) wvf_spet
                           (slot2, snd acc) ;;
    Ok (acc', {| Analyze.success := Analyze.success t + 1;
                 Analyze.failed := Scan.failed (fst sc) |}).

Fixpoint replace {A : Type} (l : list A) (n : nat) (a : A) : list A :=
  match l, n with
  | [], _ => []
  | _ :: l', O => a :: l'
  | x :: l', S n' => x :: replace l' n' a
  end.

Section Loop.

Variable pdType : Z -> String.string.
Variable fOpDetsToPlot : list String.string.
Variable PMTIndexingVector : list Z.
Variable cfg : Config.
Variable icfg : IntegConfig.

(** Line 306: [opdetType] is one of [fOpDetsToPlot]. *)
Definition plotted (wvf_ch : Z) : bool :=
  existsb (String.eqb (pdType wvf_ch)) fOpDetsToPlot.

(** Lines 289-684 for one waveform. *)
Definition waveform_step (st : State) (wvf : Waveform) : outcome State :=
  let wvf_ch := ChannelNumber wvf in
  let pmt_counter := Index.GetPMTIndex PMTIndexingVector wvf_ch in
  if pmt_counter =? -1 then Ok st
  else if negb (plotted wvf_ch) then Ok st
  else
    acc <- index (slots st) pmt_counter ;;
    r <- body cfg icfg (adcs wvf) acc (tally st) ;;
    Ok {| slots := replace (slots st) (Z.to_nat pmt_counter) (fst r);
          tally := snd r |}.

(** Lines 284-684: the waveforms of one event, from tallies at zero. *)
Definition analyze (waveforms : list Waveform) (job : list (Slot * Integs))
  : outcome State :=
  foldM waveform_step waveforms
        {| slots := job;
           tally := {| Analyze.success := 0; Analyze.failed := 0 |} |}.

End Loop.

End Event.

(** ** Vocabulary of the statements on the scan *)

Module ScanSpec.
Import Scan.

(** Peaks pushed by the end-of-pulse transitions of a run, in order. *)
Fixpoint pushed_peaks (evs : list Event) : list Z :=
  match evs with
  | [] => []
  | Closed _ _ peak true :: evs' => peak :: pushed_peaks evs'
  | _ :: evs' => pushed_peaks evs'
  end.

(** An end-of-pulse transition pushes exactly when end - start > 2. *)
Definition width_rule (ev : Event) : Prop :=
  match ev with
  | Closed start end_ _ pushed => pushed = true <-> end_ - start > 2
  | _ => True
  end.

(** Invariant of the scan when every sample read in a pulse is positive. *)
Definition good (s : State) : Prop :=
  Forall (fun p => p < counter s) (pulse_t_peak_v s) /\
  StronglySorted Z.lt (pulse_t_peak_v s) /\
  (fire s = false -> pulse_peak s = 0%float) /\
  (fire s = true ->
   (pulse_peak s = 0%float /\ counter s <= pulse_t_start s + 2) \/
   (Forall (fun p => p < pulse_t_peak s) (pulse_t_peak_v s) /\
    pulse_t_peak s < counter s)).

(** Every peak pushed is an index of the waveform. *)
Definition ranged (wvfm_size : Z) (s : State) : Prop :=
  Forall (fun p => 0 <= p < wvfm_size) (pulse_t_peak_v s) /\
  (0 < wvfm_size -> 0 <= pulse_t_peak s < wvfm_size).

End ScanSpec.

(** ** Waveforms and configurations the statements are evaluated at *)

Module Inputs.

Definition scan_all : Config :=
  {| fLowbin := 2; fHibin := 2; fNstdev := 3; fSpe_region_start := 0;
     fNbmax_factor := 0.5; fNbmin_factor := 0; fN2bmin_factor := 2;
     fCut := true; fDo_avgspe := true; fDo_amp := true |}.

(** Raw ADC counts: two noise samples around a baseline of 105, 200 pulses
    of two samples at 95 and one at 105, two samples at the baseline, one
    more pulse, three samples at the baseline. *)
Definition raw_burst : list Z :=
  [104; 106] ++ concat (repeat [95; 95; 105] 200)
             ++ [105; 105; 95; 95; 105; 105; 105; 105].

(** A flat baseline with two pulses of one ADC count, each followed by
    samples at the baseline. *)
Definition flat_wvf : list Z :=
  [100; 100; 100; 100; 99; 100; 100; 101; 99; 100; 100; 101].

Definition flat_cfg : Config :=
  {| fLowbin := 0; fHibin := 1; fNstdev := 3; fSpe_region_start := 0;
     fNbmax_factor := 0.5; fNbmin_factor := 0; fN2bmin_factor := 2;
     fCut := true; fDo_avgspe := true; fDo_amp := true |}.

(** A baseline of 100 ADC counts with one pulse whose lowest sample is in
    bin 4, and a configuration whose second noise window starts at three
    quarters of the waveform. *)
Definition dip_wvf : list Z := [100; 100; 100; 100; 90; 100; 100; 100].

Definition dip_cfg : Config :=
  {| fLowbin := 2; fHibin := 2; fNstdev := 3; fSpe_region_start := 0;
     fNbmax_factor := 0.5; fNbmin_factor := 0; fN2bmin_factor := 0.75;
     fCut := true; fDo_avgspe := true; fDo_amp := true |}.

(** Raw ADC counts: noise around a baseline of 105 in bins 0 to 2, and one
    pulse over bins 4 to 7 whose lowest sample, 96, is in bin 5; the
    baseline-referenced samples of the pulse are 4, 9, 6 and 2. *)
Definition raw_pulse : list Z :=
  [104; 106; 105; 105; 101; 96; 99; 103; 105; 105; 105; 105].

(** The same waveform cut after the pulse. *)
Definition raw_pulse_short : list Z :=
  [104; 106; 105; 105; 101; 96; 99; 103].

(** Raw ADC counts: a pulse that starts in bin 1, and noise around a
    baseline of 100 in bins 4 to 7, with the first noise window set on
    these bins. *)
Definition raw_early : list Z := [100; 90; 90; 110; 99; 101; 99; 101].

Definition early_cfg : Config :=
  {| fLowbin := 2; fHibin := 2; fNstdev := 3; fSpe_region_start := 0;
     fNbmax_factor := 7; fNbmin_factor := 4; fN2bmin_factor := 2;
     fCut := true; fDo_avgspe := true; fDo_amp := true |}.

(** Raw ADC counts: noise around a baseline of 105 in bins 0 to 2, and two
    pulses of the shape of the pulse of [raw_pulse], over bins 4 to 7 and
    9 to 12, with their lowest samples in bins 5 and 10. *)
Definition raw_pair : list Z :=
  [104; 106; 105; 105; 101; 96; 99; 103; 105; 101; 96; 99; 103;
   105; 105; 105; 105].

(** [scan_all] with the cut off. *)
Definition scan_all_no_cut : Config :=
  {| fLowbin := 2; fHibin := 2; fNstdev := 3; fSpe_region_start := 0;
     fNbmax_factor := 0.5; fNbmin_factor := 0; fN2bmin_factor := 2;
     fCut := false; fDo_avgspe := true; fDo_amp := true |}.

Definition no_tally : Analyze.Tally :=
  {| Analyze.success := 0; Analyze.failed := 0 |}.

(** A baseline-referenced waveform whose sample at index [i] is [i]. *)
Definition ramp : list float :=
  map int_to_double [0; 1; 2; 3; 4; 5; 6; 7; 8; 9].

(** A baseline-referenced waveform with one pulse, its peak of 7 at index
    3. *)
Definition early_pulse : list float :=
  map int_to_double [0; 0; 5; 7; -5; 0; 0; 0].

(** A shape window of 6 bins below the peak. *)
Definition wide_low : Config :=
  {| fLowbin := 6; fHibin := 2; fNstdev := 3; fSpe_region_start := 0;
     fNbmax_factor := 0.5; fNbmin_factor := 0; fN2bmin_factor := 2;
     fCut := true; fDo_avgspe := true; fDo_amp := true |}.

End Inputs.

(** ** Vocabulary of the further statements *)

Module MoreSpec.
Import Scan.

(** Invariant of the scan started at [c0]: three samples are scanned for
    each pulse pushed. *)
Definition paced (c0 : Z) (s : State) : Prop :=
  0 <= peak_count s /\
  (fire s = false -> c0 + 3 * peak_count s <= counter s) /\
  (fire s = true -> c0 + 3 * peak_count s <= pulse_t_start s + 1 /\
                    pulse_t_start s < counter s).

(** Invariant of the scan entered with the tally [failed0]: the tally
    moves only once 200 pulses are pushed. *)
Definition silent (failed0 : Z) (s : State) : Prop :=
  peak_count s < 200 -> Scan.failed s = failed0.

(** Invariant of the scan started at [c0] on [n] samples: a peak is the
    initial 0 or a scanned index after the first and before the last. *)
Definition inner (c0 n : Z) (s : State) : Prop :=
  Forall (fun p => p = 0 \/ c0 < p < n - 1) (pulse_t_peak_v s) /\
  (pulse_t_peak s = 0 \/ c0 < pulse_t_peak s < counter s) /\
  c0 <= counter s /\
  (fire s = true -> c0 < counter s).

(** The state of a scan that met no sample above threshold. *)
Definition quiet (cfg : Config) (failed0 : Z) (s : State) : Prop :=
  fire s = false /\ peak_count s = 0 /\ pulse_t_peak_v s = [] /\
  Scan.failed s = failed0.

(** Peaks that pass the boundary check of line 518. *)
Definition in_bounds (cfg : Config) (wvf_nbins : Z) (wvf_spet : list Z) : list Z :=
  filter (fun p => negb (Shape.out_of_bounds cfg wvf_nbins p)) wvf_spet.

(** A binary64 value that is not below zero: a zero, a NaN, or a value
    with a clear sign bit. *)
Definition unsigned_value (x : spec_float) : Prop :=
  match x with
  | S754_zero _ => True
  | S754_nan => True
  | S754_infinity s => s = false
  | S754_finite s _ _ => s = false
  end.

(** The channels between 0 and [NPDS] that are no X-ARAPUCA, in the order
    of the constructor's loop: the PMTs, each at its ordinal number. *)
Definition pmts (is_xarapuca : Z -> bool) : list Z :=
  filter (fun ch => negb (is_xarapuca ch)) (range_lt 0 Index.NPDS).

(** The channels of [pm] at the ordinal numbers [sel], when the first
    channel of [pm] has the ordinal number [t]. *)
Definition picks (pm : list Z) (t : Z) (sel : list Z) : list Z :=
  flat_map (fun s => match lookupZ pm (s - t) with
                     | Some ch => [ch]
                     | None => []
                     end) sel.

(** Invariant of the constructor's loop before channel [lo]. *)
Definition listed (is_xarapuca : Z -> bool) (lo : Z) (v : list Z) : Prop :=
  StronglySorted Z.lt v /\
  Forall (fun ch => 0 <= ch < lo /\ is_xarapuca ch = false) v.

End MoreSpec.

Module Detectors.
Import String.

(** A detector map in which every channel is a coated PMT. *)
Definition all_coated : Z -> string := fun _ => "pmt_coated"%string.

(** [OpDetsToPlot] of the calibration job. *)
Definition plot_coated : list string := ["pmt_coated"%string].

End Detectors.

Module MoreInputs.

(** What the noise analysis finds on [Inputs.flat_wvf]. *)
Definition flat_result : Noise.Result :=
  {| Noise.mean := 100%float;
     Noise.wvfm := map int_to_double [0; 0; 0; 0; 1; 0; 0; -1; 1; 0; 0; -1];
     Noise.stdev := 0%float;
     Noise.thresh := 0%float |}.

(** A baseline-referenced waveform with a pulse of three samples above 10
    around its peak in bin 4. *)
Definition bump : list float :=
  map int_to_double [0; 2; 5; 20; 40; 30; 4; 0; 0; 0].

(** A baseline-referenced waveform that is above 10 from its first sample
    to its peak in bin 2. *)
Definition ledge : list float :=
  map int_to_double [30; 35; 40; 20; 0; 0].

Definition manual_1_2 : IntegConfig :=
  {| fManual_bound_hi := 2; fManual_bound_lo := 1; fDo_integ := true |}.

(** A baseline-referenced waveform of 123 samples, flat but for a pulse
    of three samples with its peak in bin 61. *)
Definition long_bump : list float :=
  map int_to_double (repeat 0 60 ++ [20; 40; 30] ++ repeat 0 60).

(** The six integrals of the pulse of [long_bump]. *)
Definition long_bump_integs : Integs :=
  {| integ0 := [90%float]; integ1 := [90%float]; integ2 := [90%float];
     integ3 := [90%float]; integ4 := [90%float]; integ5 := [90%float] |}.

(** Raw ADC counts: 124 samples around a baseline of 105 with one pulse
    over bins 60 to 63 whose lowest sample, 96, is in bin 61. *)
Definition raw_long : list Z :=
  [104; 106] ++ repeat 105 58 ++ [101; 96; 99; 103] ++ repeat 105 60.

(** One event: a waveform on channel 7 and one on channel 3. *)
Definition two_waveforms : list Event.Waveform :=
  [ {| Event.ChannelNumber := 7; Event.adcs := raw_long |};
    {| Event.ChannelNumber := 3; Event.adcs := raw_long |} ].

(** A detector map in which the channels with an even number are the
    X-ARAPUCAs. *)
Definition even_is_xarapuca : Z -> bool := Z.even.

End MoreInputs.

(** ** Facts on reads and on the scan *)

(** Closes a conjunction of closed equations by evaluation, left to right,
    so that the runs found by the first ones are known to the later ones. *)
Ltac by_evaluation :=
  repeat match goal with
         | |- exists _, _ => eexists
         | |- _ /\ _ => split
         | |- _ = _ => vm_compute; reflexivity
         end.

Lemma lookupZ_Some_In {A : Type} (v : list A) (i : Z) (a : A) :
  lookupZ v i = Some a -> In a v.
Proof.
  unfold lookupZ. destruct (i <? 0); [discriminate|].
  apply nth_error_In.
Qed.

Lemma lookupZ_in_range {A : Type} (v : list A) (i : Z) :
  0 <= i < size v -> exists a, lookupZ v i = Some a.
Proof.
  unfold lookupZ, size. intros [H0 H1].
  destruct (i <? 0) eqn:E; [apply Z.ltb_lt in E; lia|].
  destruct (nth_error v (Z.to_nat i)) eqn:N; [eauto|].
  apply nth_error_None in N. lia.
Qed.

Lemma lookupZ_Some_range {A : Type} (v : list A) (i : Z) (a : A) :
  lookupZ v i = Some a -> 0 <= i < size v.
Proof.
  unfold lookupZ, size. destruct (i <? 0) eqn:E; [discriminate|].
  apply Z.ltb_ge in E. intros N.
  assert (Z.to_nat i < length v)%nat by (apply nth_error_Some; congruence).
  lia.
Qed.

Module ScanFacts.
Import Scan ScanSpec.

Lemma step_Ok wvfm thresh s s' ev :
  step wvfm thresh s = Ok (s', ev) ->
  exists adc, lookupZ wvfm (counter s) = Some adc /\
              s' = finish (fst (branch (size wvfm) thresh thresh adc s)) /\
              ev = snd (branch (size wvfm) thresh thresh adc s).
Proof.
  unfold step, index.
  destruct (lookupZ wvfm (counter s)) as [adc|]; [|discriminate].
  simpl. destruct (branch (size wvfm) thresh thresh adc s) as [s1 e1] eqn:B.
  intros H; inversion H; subst. exists adc. rewrite B. auto.
Qed.

Lemma loop_S wvfm thresh n s s' evs :
  loop wvfm thresh (S n) s = Ok (s', evs) ->
  exists s1 ev evs', step wvfm thresh s = Ok (s1, ev) /\
                     loop wvfm thresh n s1 = Ok (s', evs') /\ evs = ev :: evs'.
Proof.
  simpl. destruct (step wvfm thresh s) as [[s1 ev]| |]; simpl; try discriminate.
  destruct (loop wvfm thresh n s1) as [[s2 evs']| |] eqn:L; simpl; try discriminate.
  intros H; inversion H; subst. exists s1, ev, evs'. auto.
Qed.

Lemma branch_width wvfm_size thr adc s :
  width_rule (snd (branch wvfm_size thr thr adc s)).
Proof.
  unfold branch.
  destruct (negb (fire s) && (thr <? adc)%float); [exact I|].
  destruct (fire s && (adc <? thr)%float).
  - simpl. rewrite Z.gtb_ltb, Z.ltb_lt. lia.
  - destruct (fire s); [|exact I].
    destruct (pulse_peak s <? adc)%float; exact I.
Qed.

Lemma branch_pushed wvfm_size thr adc s :
  pulse_t_peak_v (fst (branch wvfm_size thr thr adc s)) =
  pulse_t_peak_v s ++ pushed_peaks [snd (branch wvfm_size thr thr adc s)].
Proof.
  unfold branch.
  destruct (negb (fire s) && (thr <? adc)%float); simpl; [now rewrite app_nil_r|].
  destruct (fire s && (adc <? thr)%float); simpl.
  - destruct (_ >? 2); simpl; [reflexivity|now rewrite app_nil_r].
  - destruct (fire s); simpl; [|now rewrite app_nil_r].
    destruct (pulse_peak s <? adc)%float; simpl; now rewrite app_nil_r.
Qed.

Lemma pushed_peaks_cons ev evs :
  pushed_peaks (ev :: evs) = pushed_peaks [ev] ++ pushed_peaks evs.
Proof. destruct ev as [| ? ? ? [|] | |]; reflexivity. Qed.

Lemma loop_events wvfm thresh n : forall s s' evs,
  loop wvfm thresh n s = Ok (s', evs) ->
  Forall width_rule evs /\
  pulse_t_peak_v s' = pulse_t_peak_v s ++ pushed_peaks evs.
Proof.
  induction n as [|n IH]; intros s s' evs H.
  - simpl in H. inversion H; subst. simpl. rewrite app_nil_r. auto.
  - apply loop_S in H. destruct H as (s1 & ev & evs' & Hs & Hl & ->).
    apply step_Ok in Hs. destruct Hs as (adc & _ & -> & ->).
    apply IH in Hl. destruct Hl as [Hw Hp]. split.
    + constructor; [apply branch_width|exact Hw].
    + rewrite Hp. simpl pulse_t_peak_v at 1. rewrite branch_pushed.
      rewrite (pushed_peaks_cons _ evs'), app_assoc. reflexivity.
Qed.

Lemma branch_count wvfm_size thr adc s :
  peak_count s = size (pulse_t_peak_v s) ->
  peak_count (fst (branch wvfm_size thr thr adc s)) =
  size (pulse_t_peak_v (fst (branch wvfm_size thr thr adc s))).
Proof.
  intros H. unfold branch.
  destruct (negb (fire s) && (thr <? adc)%float); simpl; [exact H|].
  destruct (fire s && (adc <? thr)%float); simpl.
  - destruct (_ >? 2); [|exact H].
    unfold size in *. rewrite length_app. simpl. lia.
  - destruct (fire s); [|exact H].
    destruct (pulse_peak s <? adc)%float; exact H.
Qed.

(** [peak_count] is the length of [pulse_t_peak_v] throughout the scan. *)
Lemma loop_count wvfm thresh n : forall s s' evs,
  loop wvfm thresh n s = Ok (s', evs) ->
  peak_count s = size (pulse_t_peak_v s) ->
  peak_count s' = size (pulse_t_peak_v s').
Proof.
  induction n as [|n IH]; intros s s' evs H Hc.
  - simpl in H. inversion H; subst. exact Hc.
  - apply loop_S in H. destruct H as (s1 & ev & evs' & Hs & Hl & ->).
    apply step_Ok in Hs. destruct Hs as (adc & _ & -> & _).
    eapply IH; eauto. simpl. apply branch_count. exact Hc.
Qed.

(** The scan reads inside the vector from a start offset that is an
    in-range [int]: it runs to the end. *)
Lemma loop_total wvfm thresh n : forall s,
  0 <= counter s -> counter s + Z.of_nat n <= size wvfm ->
  exists r, loop wvfm thresh n s = Ok r.
Proof.
  induction n as [|n IH]; intros s H0 H1.
  - simpl. eauto.
  - destruct (lookupZ_in_range wvfm (counter s)) as [adc Ha]; [lia|].
    simpl. unfold step, index. rewrite Ha. simpl.
    destruct (branch (size wvfm) thresh thresh adc s) as [s1 ev] eqn:B. simpl.
    assert (Hc : counter s1 = counter s).
    { unfold branch in B.
      destruct (negb (fire s) && (thresh <? adc)%float); [inversion B; reflexivity|].
      destruct (fire s && (adc <? thresh)%float); [inversion B; reflexivity|].
      destruct (fire s); [|inversion B; reflexivity].
      destruct (pulse_peak s <? adc)%float; inversion B; reflexivity. }
    destruct (IH (finish s1)) as [r Hr]; simpl; try lia.
    rewrite Hr. simpl. eauto.
Qed.

Lemma run_total cfg wvfm thresh failed0 :
  0 <= fSpe_region_start cfg < 2 ^ 31 ->
  exists r, run cfg wvfm thresh failed0 = Ok r.
Proof.
  intros H. unfold run, iterations.
  rewrite Z.mod_small by lia.
  assert (Hl : exists r, loop wvfm thresh
             (Z.to_nat (size wvfm - fSpe_region_start cfg)) (init cfg failed0) = Ok r).
  { destruct (Z_le_gt_dec (fSpe_region_start cfg) (size wvfm)) as [Hle|Hgt].
    - apply loop_total; simpl; lia.
    - replace (Z.to_nat (size wvfm - fSpe_region_start cfg)) with O by lia.
      simpl. eauto. }
  destruct Hl as [r Hr]. rewrite Hr. simpl. eauto.
Qed.

End ScanFacts.
(** ** Order of the peaks pushed by the scan *)

Module ScanOrder.
Import Scan ScanSpec.

(** A sample that is not below a positive threshold, and is a number, is
    positive. *)
Lemma positive_when_not_below (t a : float) :
  (0 <? t)%float = true -> PrimFloat.is_nan a = false ->
  (a <? t)%float = false -> (0 <? a)%float = true.
Proof.
  unfold PrimFloat.is_nan. rewrite !FloatAxioms.ltb_spec, FloatAxioms.eqb_spec.
  change (Prim2SF 0) with (S754_zero false).
  unfold SFltb, SFeqb, SFcompare.
  destruct (Prim2SF t) as [st|st| |st mt et], (Prim2SF a) as [sa|sa| |sa ma ea];
    try destruct st; try destruct sa; simpl; try discriminate; try reflexivity.
Qed.

Lemma sorted_snoc (l : list Z) (q : Z) :
  StronglySorted Z.lt l -> Forall (fun p => p < q) l ->
  StronglySorted Z.lt (l ++ [q]).
Proof.
  induction 1 as [|a l Hs IH Ha]; intros Hq; simpl.
  - repeat constructor.
  - inversion Hq; subst. constructor; [auto|].
    apply Forall_app. split; [assumption|]. constructor; [assumption|constructor].
Qed.

Lemma Forall_lt_weaken (l : list Z) (a b : Z) :
  a <= b -> Forall (fun p => p < a) l -> Forall (fun p => p < b) l.
Proof. intros Hab. apply Forall_impl. intros; lia. Qed.

Lemma good_step wvfm_size thr adc s :
  ((adc <? thr)%float = false -> (0 <? adc)%float = true) ->
  good s -> good (finish (fst (branch wvfm_size thr thr adc s))).
Proof.
  intros Hpos (Hlt & Hsort & Hidle & Hfire). unfold branch.
  destruct (fire s) eqn:F; simpl.
  - destruct (adc <? thr)%float eqn:Elt; simpl.
    + (* end of pulse *)
      destruct (Hfire eq_refl) as [[_ Hw]|[Hq Hqc]].
      * assert (Hno : ((if counter s <? wvfm_size then counter s
                        else counter s - 1) - pulse_t_start s >? 2) = false).
        { rewrite Z.gtb_ltb. apply Z.ltb_ge.
          destruct (counter s <? wvfm_size); lia. }
        rewrite Hno. unfold good; simpl. repeat split; auto; try discriminate.
        eapply Forall_lt_weaken; [|exact Hlt]. lia.
      * destruct (_ >? 2); unfold good; simpl; repeat split; auto;
          try discriminate.
        -- apply Forall_app. split.
           ++ eapply Forall_lt_weaken; [|exact Hlt]. lia.
           ++ constructor; [lia|constructor].
        -- apply sorted_snoc; assumption.
        -- eapply Forall_lt_weaken; [|exact Hlt]. lia.
    + (* inside a pulse *)
      specialize (Hpos eq_refl).
      destruct (pulse_peak s <? adc)%float eqn:Epk; unfold good; simpl;
        rewrite ?F; simpl.
      * repeat split; auto; try discriminate.
        -- eapply Forall_lt_weaken; [|exact Hlt]. lia.
        -- intros _. right. split; [assumption|lia].
      * repeat split; auto; try discriminate.
        -- eapply Forall_lt_weaken; [|exact Hlt]. lia.
        -- intros _. right. destruct (Hfire eq_refl) as [[Hz _]|[Hq Hqc]].
           ++ rewrite Hz in Epk. congruence.
           ++ split; [assumption|lia].
  - destruct (thr <? adc)%float eqn:Egt; unfold good; simpl; rewrite ?F; simpl.
    + repeat split; auto; try discriminate.
      * eapply Forall_lt_weaken; [|exact Hlt]. lia.
      * intros _. left. split; [auto|].
        destruct (counter s - 1 >? 0) eqn:E; [lia|lia].
    + repeat split; auto; try discriminate.
      eapply Forall_lt_weaken; [|exact Hlt]. lia.
Qed.

Lemma good_loop wvfm thr n : forall s s' evs,
  (0 <? thr)%float = true ->
  Forall (fun a => PrimFloat.is_nan a = false) wvfm ->
  loop wvfm thr n s = Ok (s', evs) -> good s -> good s'.
Proof.
  induction n as [|n IH]; intros s s' evs Hthr Hnan H G.
  - simpl in H. inversion H; subst. exact G.
  - apply ScanFacts.loop_S in H. destruct H as (s1 & ev & evs' & Hs & Hl & ->).
    apply ScanFacts.step_Ok in Hs. destruct Hs as (adc & Ha & -> & _).
    eapply IH; eauto. apply good_step; [|exact G].
    apply positive_when_not_below; [exact Hthr|].
    rewrite Forall_forall in Hnan. apply Hnan.
    eapply lookupZ_Some_In; eauto.
Qed.

Lemma good_init cfg failed0 : good (init cfg failed0).
Proof.
  unfold good; simpl. repeat split; auto; try constructor; discriminate.
Qed.

Lemma flush_peaks s : pulse_t_peak_v (flush s) = pulse_t_peak_v s.
Proof. unfold flush. destruct (fire s); reflexivity. Qed.

Lemma ranged_step wvfm_size thr adc s :
  0 <= counter s < wvfm_size ->
  ranged wvfm_size s -> ranged wvfm_size (finish (fst (branch wvfm_size thr thr adc s))).
Proof.
  intros Hc [Hl Hp]. unfold branch.
  destruct (negb (fire s) && (thr <? adc)%float); [split; simpl; auto|].
  destruct (fire s && (adc <? thr)%float).
  - split; simpl; [|lia].
    destruct (_ >? 2); [|assumption].
    apply Forall_app. split; [assumption|]. constructor; [apply Hp; lia|constructor].
  - destruct (fire s); [|split; simpl; auto].
    destruct (pulse_peak s <? adc)%float; split; simpl; auto.
Qed.

Lemma ranged_loop wvfm thr n : forall s s' evs,
  loop wvfm thr n s = Ok (s', evs) -> ranged (size wvfm) s -> ranged (size wvfm) s'.
Proof.
  induction n as [|n IH]; intros s s' evs H R.
  - simpl in H. inversion H; subst. exact R.
  - apply ScanFacts.loop_S in H. destruct H as (s1 & ev & evs' & Hs & Hl & ->).
    apply ScanFacts.step_Ok in Hs. destruct Hs as (adc & Ha & -> & _).
    eapply IH; eauto. apply ranged_step; [|exact R].
    eapply lookupZ_Some_range; eauto.
Qed.

Lemma run_peaks_in_range cfg wvfm thr failed0 s evs :
  run cfg wvfm thr failed0 = Ok (s, evs) ->
  Forall (fun p => 0 <= p < size wvfm) (pulse_t_peak_v s).
Proof.
  unfold run.
  destruct (loop wvfm thr (iterations cfg wvfm) (init cfg failed0))
    as [[s1 evs1]| |] eqn:L; simpl; try discriminate.
  intros H; inversion H; subst. rewrite flush_peaks.
  apply ranged_loop in L; [apply L|].
  split; simpl; [constructor|lia].
Qed.

End ScanOrder.

(** ** The pulse scan: the 200-pulse test, the start index, the width rule
       and the order of the peaks *)

Module ScanClaims.
Import Scan ScanSpec Inputs.

(** C1, the code at [raw_burst], a waveform of 201 pulses: the noise
    analysis finds a threshold of 3; the scan is entered with a failure
    tally of 0 and pushes the 200th peak at sample 601; it then goes on
    through the last of the 610 samples, pushes a 201st peak, and leaves
    the tally at 5, one failure for each of the five iterations that ended
    with [peak_count] at 200.  The waveform then goes through the shape and
    amplitude stages: 201 amplitudes are recorded and the waveform is
    counted as a success as well. *)
Theorem C1_breaker_counts_each_later_sample_and_scan_goes_on :
  exists r s evs slot tally,
    Noise.analysis scan_all raw_burst = Ok r /\
    Noise.thresh r = 3%float /\
    size raw_burst = 610 /\
    detect scan_all raw_burst 0 = Ok (s, evs) /\
    nth 601 evs Idle = Closed 598 601 600 true /\
    length evs = 610%nat /\
    counter s = 610 /\
    peak_count s = 201 /\
    length (pulse_t_peak_v s) = 201%nat /\
    Scan.failed s = 5 /\
    Analyze.analyze_waveform scan_all raw_burst (new_slot scan_all) no_tally
      = Ok (slot, tally) /\
    length (amp slot) = 201%nat /\
    Analyze.success tally = 1 /\
    Analyze.failed tally = 5.
Proof. by_evaluation. Qed.

(** Line 475 at every iteration: the tally grows by one whenever the
    iteration ends with [peak_count] at 200, and the scan state is
    otherwise what the branch left. *)
Lemma finish_counts_failure s :
  peak_count s = 200 ->
  Scan.failed (finish s) = Scan.failed s + 1 /\ counter (finish s) = counter s + 1 /\
  fire (finish s) = fire s /\ pulse_t_peak_v (finish s) = pulse_t_peak_v s.
Proof. intros H. simpl. rewrite H. auto. Qed.

(** C6, the code at [raw_early], whose pulse opens at scan index 1: the
    threshold is 3, the start index recorded is 1, not max(1 - 1, 0) = 0;
    the pulse closes at index 3 and is dropped for a width of 2, and the
    waveform is tallied as one without pulses. *)
Theorem C6_start_index_at_one_is_not_moved_back :
  exists r s slot tally,
    Noise.analysis early_cfg raw_early = Ok r /\
    Noise.thresh r = 3%float /\
    Noise.wvfm r = map int_to_double [0; 10; 10; -10; 1; -1; 1; -1] /\
    detect early_cfg raw_early 0 =
      Ok (s, [Idle; Opened 1 1; Tracked; Closed 1 3 2 false;
              Idle; Idle; Idle; Idle]) /\
    Z.max (1 - 1) 0 = 0 /\
    pulse_t_peak_v s = [] /\
    Analyze.analyze_waveform early_cfg raw_early (new_slot early_cfg) no_tally
      = Ok (slot, tally) /\
    Analyze.success tally = 0 /\
    Analyze.failed tally = 1.
Proof. by_evaluation. Qed.

(** The start index of line 444 at every scan index: the index minus one
    from index 2 on, the index itself at 0 and at 1. *)
Lemma opened_start wvfm_size thr adc s :
  fire s = false -> (thr <? adc)%float = true ->
  snd (branch wvfm_size thr thr adc s) =
    Opened (counter s) (if counter s - 1 >? 0 then counter s - 1 else counter s) /\
  pulse_t_start (fst (branch wvfm_size thr thr adc s)) =
    (if counter s - 1 >? 0 then counter s - 1 else counter s) /\
  (counter s <> 1 -> 0 <= counter s ->
   pulse_t_start (fst (branch wvfm_size thr thr adc s)) = Z.max (counter s - 1) 0).
Proof.
  intros F T. unfold branch. rewrite F, T. simpl. repeat split.
  intros H1 H0. destruct (counter s - 1 >? 0) eqn:E.
  - rewrite Z.gtb_ltb in E. apply Z.ltb_lt in E. lia.
  - rewrite Z.gtb_ltb in E. apply Z.ltb_ge in E. lia.
Qed.

(** C7: the scan of any waveform from a start offset that is a
    non-negative [int] runs to its end; each end-of-pulse transition pushes
    its peak exactly when its recorded end index minus its recorded start
    index exceeds 2, and the list of accepted peaks holds the peaks of
    those transitions and nothing else: a pulse of width 2 or less leaves
    no entry, and ending one is no failure of the run. *)
Theorem C7_only_pulses_wider_than_two_are_pushed
  (cfg : Config) (wvfm : list float) (thresh : float) (failed0 : Z) :
  0 <= fSpe_region_start cfg < 2 ^ 31 ->
  exists s evs,
    run cfg wvfm thresh failed0 = Ok (s, evs) /\
    pulse_t_peak_v s = pushed_peaks evs /\
    peak_count s = size (pulse_t_peak_v s) /\
    Forall (fun ev => match ev with
                      | Closed start end_ _ pushed =>
                          (pushed = true -> end_ - start > 2) /\
                          (end_ - start <= 2 -> pushed = false)
                      | _ => True
                      end) evs.
Proof.
  intros Hs. destruct (ScanFacts.run_total cfg wvfm thresh failed0 Hs) as [[s evs] Hr].
  exists s, evs. split; [exact Hr|].
  unfold run in Hr.
  destruct (loop wvfm thresh (iterations cfg wvfm) (init cfg failed0))
    as [[s1 evs1]| |] eqn:L; simpl in Hr; try discriminate.
  inversion Hr; subst.
  pose proof (ScanFacts.loop_count _ _ _ _ _ _ L eq_refl) as Hc.
  apply ScanFacts.loop_events in L. destruct L as [Hw Hp].
  split; [|split].
  - rewrite ScanOrder.flush_peaks, Hp. reflexivity.
  - rewrite ScanOrder.flush_peaks. unfold flush. destruct (fire s1); exact Hc.
  - eapply Forall_impl; [|exact Hw].
    intros [| st e p pushed | |]; simpl; auto.
    intros [H1 H2]. split; [exact H1|].
    intros Hle. destruct pushed; [|reflexivity].
    specialize (H1 eq_refl). lia.
Qed.

Lemma C7_witness :
  exists s evs,
    run scan_all (map int_to_double [0; 0; 5; 5; -5; 5; -5]) 1 0 = Ok (s, evs) /\
    pulse_t_peak_v s = pushed_peaks evs /\
    peak_count s = size (pulse_t_peak_v s) /\
    Forall (fun ev => match ev with
                      | Closed start end_ _ pushed =>
                          (pushed = true -> end_ - start > 2) /\
                          (end_ - start <= 2 -> pushed = false)
                      | _ => True
                      end) evs.
Proof.
  apply (C7_only_pulses_wider_than_two_are_pushed scan_all
           (map int_to_double [0; 0; 5; 5; -5; 5; -5]) 1 0).
  simpl. lia.
Defined.

(** A run with one pulse of width 3, pushed, and one of width 2, dropped. *)
Example width_rule_run :
  exists s,
    run scan_all (map int_to_double [0; 0; 5; 5; -5; 5; -5]) 1 0 =
      Ok (s, [Idle; Idle; Opened 2 1; Tracked; Closed 1 4 3 true;
              Opened 5 4; Closed 4 6 0 false]) /\
    pulse_t_peak_v s = [3].
Proof. by_evaluation. Qed.

(** C8 fails where the threshold is zero: the noise windows of [flat_wvf]
    hold three equal samples, so the threshold is 3 times a deviation of
    0; the samples read inside each pulse equal the baseline, none exceeds
    the initial [pulse_peak] of 0, and both pulses push the initial
    [pulse_t_peak], 0. *)
Lemma C8_counterexample_equal_peaks :
  exists r s evs,
    Noise.analysis flat_cfg flat_wvf = Ok r /\
    Noise.thresh r = 0%float /\
    Noise.wvfm r = map int_to_double [0; 0; 0; 0; 1; 0; 0; -1; 1; 0; 0; -1] /\
    detect flat_cfg flat_wvf 0 = Ok (s, evs) /\
    pulse_t_peak_v s = [0; 0].
Proof.
  by_evaluation.
Qed.

(** C8 amended: at a positive threshold, on a baseline-referenced waveform
    whose samples are numbers, the scan from a start offset that is a
    non-negative [int] runs to its end and the peak indices it pushed are
    strictly increasing. *)
Theorem C8_peaks_strictly_increase_at_positive_threshold
  (cfg : Config) (wvfm : list float) (thresh : float) (failed0 : Z) :
  0 <= fSpe_region_start cfg < 2 ^ 31 ->
  (0 <? thresh)%float = true ->
  Forall (fun a => PrimFloat.is_nan a = false) wvfm ->
  exists s evs,
    run cfg wvfm thresh failed0 = Ok (s, evs) /\
    StronglySorted Z.lt (pulse_t_peak_v s).
Proof.
  intros Hs Hthr Hnan.
  destruct (ScanFacts.run_total cfg wvfm thresh failed0 Hs) as [[s evs] Hr].
  exists s, evs. split; [exact Hr|].
  unfold run in Hr.
  destruct (loop wvfm thresh (iterations cfg wvfm) (init cfg failed0))
    as [[s1 evs1]| |] eqn:L; simpl in Hr; try discriminate.
  inversion Hr; subst. rewrite ScanOrder.flush_peaks.
  eapply ScanOrder.good_loop in L; eauto using ScanOrder.good_init.
  apply L.
Qed.

Lemma C8_witness :
  exists s evs,
    run scan_all (map int_to_double [0; 0; 5; 7; -5; 5; 6; 9; -5]) 1 0 = Ok (s, evs) /\
    StronglySorted Z.lt (pulse_t_peak_v s).
Proof.
  apply (C8_peaks_strictly_increase_at_positive_threshold scan_all
           (map int_to_double [0; 0; 5; 7; -5; 5; 6; 9; -5]) 1 0).
  - simpl. lia.
  - reflexivity.
  - repeat constructor.
Defined.

(** A run at threshold 1 that pushes the peaks 3 and 7. *)
Example increasing_peaks_run :
  exists s evs,
    run scan_all (map int_to_double [0; 0; 5; 7; -5; 5; 6; 9; -5]) 1 0 = Ok (s, evs) /\
    pulse_t_peak_v s = [3; 7].
Proof. by_evaluation. Qed.

End ScanClaims.

(** ** The noise windows *)

Module NoiseClaims.
Import Noise Inputs.

Lemma In_zseq (n : nat) : forall lo i,
  In i (zseq lo n) <-> lo <= i < lo + Z.of_nat n.
Proof.
  induction n as [|n IH]; intros lo i; simpl.
  - lia.
  - rewrite IH. lia.
Qed.

Lemma zseq_shift (n : nat) : forall lo,
  map (fun i => i - 1) (zseq lo n) = zseq (lo - 1) n.
Proof.
  induction n as [|n IH]; intros lo; simpl; [reflexivity|].
  rewrite IH. do 2 f_equal. lia.
Qed.

Lemma length_zseq (n : nat) : forall lo, length (zseq lo n) = n.
Proof. induction n; intros; simpl; auto. Qed.

(** A mean loop that ends normally has read inside the waveform only. *)
Lemma total_loop_Ok wvf (l : list Z) : forall acc r,
  foldM (total_body wvf) l acc = Ok r ->
  Forall (fun i => 0 <= i < size wvf) l /\
  snd r = snd acc + Z.of_nat (length l).
Proof.
  induction l as [|i l IH]; intros acc r H.
  - simpl in H. inversion H; subst. split; [constructor|simpl; lia].
  - simpl in H. unfold total_body at 1, index in H.
    destruct (lookupZ wvf i) as [x|] eqn:Hx; simpl in H; [|discriminate].
    apply IH in H. destruct H as [Hl Hm]. split.
    + constructor; [eapply lookupZ_Some_range; eauto|exact Hl].
    + rewrite Hm. simpl snd. simpl length. lia.
Qed.

(** The second loop of the variance visits the indices of the second loop
    of the mean, each moved down by one. *)
Lemma var_region2_shifted (b : Bins) (wvf_nbins : Z) :
  var_region2 b wvf_nbins = map (fun i => i - 1) (mean_region2 b wvf_nbins).
Proof.
  unfold var_region2, mean_region2, range_lt, range_le.
  rewrite zseq_shift. f_equal. lia.
Qed.

(** The second loop of the mean visits the index [wvf_nbins] whenever it
    runs at all, and then the mean is not computed inside the vector. *)
Lemma mean_region2_reaches_size (wvf : list Z) (b : Bins) :
  noisebin2min b <= size wvf ->
  In (size wvf) (mean_region2 b (size wvf)) /\
  forall r, total_m wvf b = Ok r -> False.
Proof.
  intros Hle.
  assert (Hin : In (size wvf) (mean_region2 b (size wvf))).
  { unfold mean_region2, range_le. apply In_zseq. lia. }
  split; [exact Hin|].
  intros r. unfold total_m.
  destruct (foldM (total_body wvf) (mean_region1 b) (0%float, 0))
    as [acc| |]; simpl; try discriminate.
  intros H. apply total_loop_Ok in H. destruct H as [Hall _].
  rewrite Forall_forall in Hall. specialize (Hall _ Hin). lia.
Qed.

(** A noise analysis whose mean loops stay inside the waveform has both
    second windows empty: its statistics come from the first window. *)
Lemma defined_mean_has_no_second_window (wvf : list Z) (b : Bins) r :
  total_m wvf b = Ok r ->
  mean_region2 b (size wvf) = [] /\ var_region2 b (size wvf) = [] /\
  snd r = Z.of_nat (length (mean_region1 b)).
Proof.
  intros H.
  assert (Hgt : size wvf < noisebin2min b).
  { destruct (Z_lt_le_dec (size wvf) (noisebin2min b)) as [Hlt|Hle]; [exact Hlt|].
    exfalso. eapply (proj2 (mean_region2_reaches_size wvf b Hle)); eauto. }
  assert (E1 : mean_region2 b (size wvf) = []).
  { unfold mean_region2, range_le.
    replace (Z.to_nat (size wvf - noisebin2min b + 1)) with O by lia. reflexivity. }
  assert (E2 : var_region2 b (size wvf) = []).
  { unfold var_region2, range_lt.
    replace (Z.to_nat (size wvf - (noisebin2min b - 1))) with O by lia. reflexivity. }
  repeat split; auto.
  unfold total_m in H. rewrite E1 in H.
  destruct (foldM (total_body wvf) (mean_region1 b) (0%float, 0))
    as [acc| |] eqn:F; simpl in H; try discriminate.
  inversion H; subst. apply total_loop_Ok in F. simpl in F. lia.
Qed.

(** C5, the code at a waveform of 8 samples with the second window set at
    three quarters of it: the mean loops visit 0..2 and 6..8, the variance
    loops visit 0..2 and 5..7. *)
Theorem C5_variance_and_mean_visit_different_second_windows :
  exists b,
    bins dip_cfg dip_wvf = Ok b /\
    size dip_wvf = 8 /\
    mean_region1 b = [0; 1; 2] /\
    mean_region2 b (size dip_wvf) = [6; 7; 8] /\
    var_region1 b = [0; 1; 2] /\
    var_region2 b (size dip_wvf) = [5; 6; 7].
Proof. by_evaluation. Qed.

(** C10, the code at the same waveform: the second mean loop visits the
    index 8 of a vector of 8 samples, a read outside the vector, and
    neither the sums of the mean nor the analysis are defined. *)
Theorem C10_second_mean_loop_reads_index_size :
  exists b,
    bins dip_cfg dip_wvf = Ok b /\
    size dip_wvf = 8 /\
    mean_region2 b (size dip_wvf) = [6; 7; 8] /\
    index dip_wvf 8 = Undefined /\
    total_m dip_wvf b = Undefined /\
    analysis dip_cfg dip_wvf = Undefined.
Proof. by_evaluation. Qed.

End NoiseClaims.

(** ** The average SPE shape *)

Module ShapeClaims.
Import Shape Inputs.

(** [tenth] is the binary64 value that the literal [0.1] denotes. *)
Lemma tenth_is_the_double :
  Prim2SF 0x1.999999999999ap-4%float = S754_finite false 7205759403792794 (-56) /\
  (tenth == 7205759403792794 # (2 ^ 56))%Q.
Proof. split; reflexivity. Qed.

(** The test of line 525 holds for exactly the separations above 0 and
    below 0.1: it looks for a peak [l] that lies before the peak [i]. *)
Lemma veto_test_iff (ti tl : Z) :
  below_tenth (ti - tl) && (ti - tl >? 0) = true <->
  (inject_Z (ti - tl) < tenth)%Q /\ tl < ti.
Proof.
  unfold below_tenth. rewrite andb_true_iff, negb_true_iff.
  rewrite Z.gtb_ltb, Z.ltb_lt.
  split; intros [H1 H2]; (split; [|lia]).
  - apply Qnot_le_lt. intros Hle. apply Qle_bool_iff in Hle. congruence.
  - destruct (Qle_bool tenth (inject_Z (ti - tl))) eqn:E; [|reflexivity].
    apply Qle_bool_iff in E. exfalso. eapply Qlt_not_le; eauto.
Qed.

(** No two whole numbers are separated by more than 0 and less than 0.1. *)
Lemma veto_test_never (ti tl : Z) :
  below_tenth (ti - tl) && (ti - tl >? 0) = false.
Proof.
  destruct (below_tenth (ti - tl) && (ti - tl >? 0)) eqn:E; [|reflexivity].
  apply veto_test_iff in E. destruct E as [Hq Hz]. exfalso.
  unfold Qlt, tenth, inject_Z in Hq. simpl in Hq. lia.
Qed.

Lemma veto_loop_acc (wvf_spet : list Z) (ti : Z) : forall acc,
  fold_left (veto_body ti) wvf_spet acc = acc.
Proof.
  induction wvf_spet as [|tl l IH]; intros acc; simpl; [reflexivity|].
  unfold veto_body at 2. rewrite veto_test_never. apply IH.
Qed.

Lemma selected_always (cfg : Config) (wvf_spet : list Z) (ti : Z) :
  selected cfg wvf_spet ti = true.
Proof.
  unfold selected, veto_loop. rewrite veto_loop_acc.
  destruct (negb (fCut cfg)); reflexivity.
Qed.

(** The reads of lines 531-534 that end normally lie in the waveform: they
    are the [NBINS] indices from [peakbin - fLowbin + 1]. *)
Lemma add_loop_Ok cfg wvfm peakbin (l : list Z) : forall h h',
  foldM (add_body cfg wvfm peakbin) l h = Ok h' ->
  Forall (fun j => 0 <= peakbin - fLowbin cfg + j < size wvfm) l.
Proof.
  induction l as [|j l IH]; intros h h' H; [constructor|].
  simpl in H. unfold add_body at 1, index in H.
  destruct (lookupZ wvfm (peakbin - fLowbin cfg + j)) as [x|] eqn:Hx;
    simpl in H; [|discriminate].
  constructor; [eapply lookupZ_Some_range; eauto|eapply IH; eauto].
Qed.

Lemma add_pulse_reads cfg wvfm peakbin h h' :
  add_pulse cfg wvfm peakbin h = Ok h' ->
  forall i, peakbin - fLowbin cfg + 1 <= i <= peakbin + fHibin cfg + 1 ->
            0 <= i < size wvfm.
Proof.
  unfold add_pulse. intros H i Hi. apply add_loop_Ok in H.
  rewrite Forall_forall in H.
  specialize (H (i - (peakbin - fLowbin cfg))).
  replace (peakbin - fLowbin cfg + (i - (peakbin - fLowbin cfg))) with i in H by lia.
  apply H. unfold range_le, NBINS. apply NoiseClaims.In_zseq. lia.
Qed.

(** C2, the code at [raw_pair] with the cut on: the scan accepts the
    peaks in bins 5 and 10, five samples apart, both pass the boundary
    check, the loop of lines 523-526 leaves [selected] at [true] for each
    of them (the separation it compares with 0.1 is a difference of
    sample indices: 5 for the later peak, -5 for the earlier), and the
    shape stage adds the window of both and counts two pulses; the slot
    is the one the stage leaves with the cut off. *)
Theorem C2_cut_leaves_both_close_peaks_in :
  exists r s evs slot,
    Noise.analysis scan_all raw_pair = Ok r /\
    detect scan_all raw_pair 0 = Ok (s, evs) /\
    Scan.pulse_t_peak_v s = [5; 10] /\
    fCut scan_all = true /\
    out_of_bounds scan_all (size (Noise.wvfm r)) 5 = false /\
    out_of_bounds scan_all (size (Noise.wvfm r)) 10 = false /\
    below_tenth (10 - 5) = false /\
    veto_loop (Scan.pulse_t_peak_v s) 5 = true /\
    veto_loop (Scan.pulse_t_peak_v s) 10 = true /\
    stage scan_all (Noise.wvfm r) (Scan.pulse_t_peak_v s) (new_slot scan_all)
      = Ok slot /\
    navspes slot = 2 /\
    avgspe slot = [0; 8; 18; 12; 4; 0; 0]%float /\
    stage scan_all_no_cut (Noise.wvfm r) (Scan.pulse_t_peak_v s)
          (new_slot scan_all_no_cut) = Ok slot.
Proof. by_evaluation. Qed.

(** C4, the code at [raw_pulse], with two bins below and two above the
    peak: the scan accepts the peak in bin 5, the boundary check passes,
    and bins 1 to 5 of the running sum receive the baseline-referenced
    samples at 4..8, which are 4, 9, 6, 2, 0, not those at 3..7, which are
    0, 4, 9, 6, 2; the counter grows by one.  At [raw_pulse_short] the
    same peak passes the boundary check (5 + 2 is not above the 8 samples)
    and the loop reads index 8, outside the vector. *)
Theorem C4_window_is_read_one_bin_late :
  exists r s evs slot tally r',
    Noise.analysis scan_all raw_pulse = Ok r /\
    Noise.wvfm r = map int_to_double [1; -1; 0; 0; 4; 9; 6; 2; 0; 0; 0; 0] /\
    detect scan_all raw_pulse 0 = Ok (s, evs) /\
    Scan.pulse_t_peak_v s = [5] /\
    out_of_bounds scan_all (size raw_pulse) 5 = false /\
    Analyze.analyze_waveform scan_all raw_pulse (new_slot scan_all) no_tally
      = Ok (slot, tally) /\
    avgspe slot = map int_to_double [0; 4; 9; 6; 2; 0; 0] /\
    navspes slot = 1 /\
    Noise.analysis scan_all raw_pulse_short = Ok r' /\
    out_of_bounds scan_all (size raw_pulse_short) 5 = false /\
    stage scan_all (Noise.wvfm r') [5] (new_slot scan_all) = Undefined /\
    Analyze.analyze_waveform scan_all raw_pulse_short (new_slot scan_all) no_tally
      = Undefined.
Proof. by_evaluation. Qed.

End ShapeClaims.

(** ** The amplitudes *)

Module AmplitudeClaims.
Import Amplitude Inputs.

Lemma loop_records cfg wvfm (wvf_spet : list Z) : forall s,
  Forall (fun p => 0 <= p < size wvfm) wvf_spet ->
  exists vals s',
    foldM (peak_body cfg wvfm) wvf_spet s = Ok s' /\
    amp s' = amp s ++ vals /\ avgspe s' = avgspe s /\
    Forall2 (fun p v => lookupZ wvfm p = Some v) wvf_spet vals.
Proof.
  induction wvf_spet as [|p l IH]; intros s Hr.
  - exists [], s. simpl. rewrite app_nil_r. auto.
  - inversion Hr as [|? ? Hp Hl]; subst.
    destruct (lookupZ_in_range wvfm p Hp) as [v Hv].
    simpl. unfold peak_body at 1, at_. rewrite Hv. simpl.
    match goal with |- context [foldM _ l ?s1] =>
      destruct (IH s1 Hl) as (vals & s' & Hf & Ha & Hh & H2) end.
    exists (v :: vals), s'. rewrite Hf, Ha, Hh. simpl.
    rewrite <- app_assoc. repeat split; auto.
Qed.

(** C9 fails on [raw_pulse] with 6 bins below the peak: the scan accepts
    the peak in bin 5, the boundary check excludes it (5 - 6 is below 0),
    the shape stage leaves the slot as it was, and the amplitude stage
    records the value 9 of the peak. *)
Lemma C9_counterexample_excluded_peak_is_recorded :
  exists r s evs slot tally,
    Noise.analysis wide_low raw_pulse = Ok r /\
    detect wide_low raw_pulse 0 = Ok (s, evs) /\
    Scan.pulse_t_peak_v s = [5] /\
    Shape.out_of_bounds wide_low (size raw_pulse) 5 = true /\
    Shape.stage wide_low (Noise.wvfm r) [5] (new_slot wide_low)
      = Ok (new_slot wide_low) /\
    Analyze.analyze_waveform wide_low raw_pulse (new_slot wide_low) no_tally
      = Ok (slot, tally) /\
    avgspe slot = avgspe (new_slot wide_low) /\
    navspes slot = 0 /\
    amp slot = [9%float].
Proof. by_evaluation. Qed.

(** C9 amended: with the amplitude analysis on, the amplitude stage
    records, for every peak the scan accepted and in their order, the
    baseline-referenced value at the peak index; it applies no boundary
    check, and its read at the peak never leaves the waveform. *)
Theorem C9_every_accepted_peak_is_recorded
  (cfg : Config) (wvfm : list float) (thresh : float) (failed0 : Z) (slot : Slot) :
  0 <= fSpe_region_start cfg < 2 ^ 31 ->
  fDo_amp cfg = true ->
  exists s evs vals slot',
    Scan.run cfg wvfm thresh failed0 = Ok (s, evs) /\
    stage cfg wvfm (Scan.pulse_t_peak_v s) slot = Ok slot' /\
    amp slot' = amp slot ++ vals /\
    Forall2 (fun p v => lookupZ wvfm p = Some v) (Scan.pulse_t_peak_v s) vals.
Proof.
  intros Hs Ha.
  destruct (ScanFacts.run_total cfg wvfm thresh failed0 Hs) as [[s evs] Hr].
  pose proof (ScanOrder.run_peaks_in_range _ _ _ _ _ _ Hr) as Hrange.
  destruct (loop_records cfg wvfm _ slot Hrange) as (vals & s' & Hf & Hamp & _ & H2).
  exists s, evs, vals, s'. unfold stage. rewrite Ha. auto.
Qed.

Lemma C9_witness :
  exists s evs vals slot',
    Scan.run wide_low early_pulse 1 0 = Ok (s, evs) /\
    stage wide_low early_pulse (Scan.pulse_t_peak_v s) (new_slot wide_low)
      = Ok slot' /\
    amp slot' = amp (new_slot wide_low) ++ vals /\
    Forall2 (fun p v => lookupZ early_pulse p = Some v) (Scan.pulse_t_peak_v s) vals.
Proof.
  apply (C9_every_accepted_peak_is_recorded wide_low early_pulse 1 0
           (new_slot wide_low)).
  - simpl. lia.
  - reflexivity.
Defined.

End AmplitudeClaims.

(** ** The normalisation of [endJob] *)

Module EndJobClaims.
Import EndJob Inputs.

Lemma update_length (h : TH1D.t) : forall n f,
  length (TH1D.update h n f) = length h.
Proof.
  induction h as [|x h IH]; intros [|n] f; simpl; auto.
Qed.

Lemma nth_update (h : TH1D.t) : forall n m f,
  (m < length h)%nat ->
  nth m (TH1D.update h n f) 0%float =
    if Nat.eqb m n then f (nth m h 0%float) else nth m h 0%float.
Proof.
  induction h as [|x h IH]; intros [|n] [|m] f Hm; simpl in *; try lia; auto.
  apply IH. lia.
Qed.

Lemma GetSize_Set (h : TH1D.t) bin c :
  TH1D.GetSize (TH1D.SetBinContent h bin c) = TH1D.GetSize h.
Proof.
  unfold TH1D.SetBinContent, TH1D.GetSize, size.
  destruct ((0 <=? bin) && (bin <? Z.of_nat (length h))); [|reflexivity].
  rewrite update_length. reflexivity.
Qed.

Lemma Get_in_range (h : TH1D.t) ix :
  0 <= ix < TH1D.GetSize h ->
  TH1D.GetBinContent h ix = nth (Z.to_nat ix) h 0%float.
Proof.
  intros [H0 H1]. unfold TH1D.GetBinContent.
  destruct (ix <? 0) eqn:E0; [apply Z.ltb_lt in E0; lia|].
  destruct (TH1D.GetSize h <=? ix) eqn:E1; [apply Z.leb_le in E1; lia|].
  reflexivity.
Qed.

Lemma Get_Set (h : TH1D.t) bin c ix :
  0 <= ix < TH1D.GetSize h ->
  TH1D.GetBinContent (TH1D.SetBinContent h bin c) ix =
    if ix =? bin then c else TH1D.GetBinContent h ix.
Proof.
  intros Hix. rewrite Get_in_range by (rewrite GetSize_Set; exact Hix).
  rewrite (Get_in_range h ix Hix).
  unfold TH1D.SetBinContent.
  destruct ((0 <=? bin) && (bin <? TH1D.GetSize h)) eqn:E.
  - apply andb_true_iff in E. destruct E as [E0 E1].
    apply Z.leb_le in E0. apply Z.ltb_lt in E1.
    rewrite nth_update by (unfold TH1D.GetSize, size in Hix; lia).
    destruct (ix =? bin) eqn:Eb.
    + apply Z.eqb_eq in Eb. subst. rewrite Nat.eqb_refl. reflexivity.
    + apply Z.eqb_neq in Eb.
      destruct (Nat.eqb (Z.to_nat ix) (Z.to_nat bin)) eqn:En; [|reflexivity].
      apply Nat.eqb_eq in En. lia.
  - destruct (ix =? bin) eqn:Eb; [|reflexivity].
    apply Z.eqb_eq in Eb. subst. exfalso.
    apply andb_false_iff in E. destruct E as [E|E].
    + apply Z.leb_gt in E. lia.
    + apply Z.ltb_ge in E. lia.
Qed.

Lemma GetSize_normalise_bin d h ix :
  TH1D.GetSize (normalise_bin d h ix) = TH1D.GetSize h.
Proof. unfold normalise_bin. apply GetSize_Set. Qed.

(** The loop of lines 729-735 over the bins from [lo]: a bin it visits
    holds its former content divided by the count, any other bin is as it
    was. *)
Lemma normalise_loop (d : Z) (n : nat) : forall lo h ix,
  0 <= ix < TH1D.GetSize h ->
  TH1D.GetBinContent (fold_left (normalise_bin d) (zseq lo n) h) ix =
    if (lo <=? ix) && (ix <? lo + Z.of_nat n)
    then (TH1D.GetBinContent h ix / int_to_double d)%float
    else TH1D.GetBinContent h ix.
Proof.
  induction n as [|n IH]; intros lo h ix Hix.
  - simpl. replace (ix <? lo + 0) with (ix <? lo) by (f_equal; lia).
    destruct (lo <=? ix) eqn:E1, (ix <? lo) eqn:E2; try reflexivity.
    apply Z.leb_le in E1. apply Z.ltb_lt in E2. lia.
  - simpl fold_left. rewrite IH by (rewrite GetSize_normalise_bin; exact Hix).
    unfold normalise_bin. rewrite Get_Set by exact Hix.
    destruct (ix =? lo) eqn:Eq.
    + apply Z.eqb_eq in Eq. subst ix.
      replace ((lo + 1 <=? lo) && (lo <? lo + 1 + Z.of_nat n)) with false
        by (symmetry; apply andb_false_iff; left; apply Z.leb_gt; lia).
      replace ((lo <=? lo) && (lo <? lo + Z.of_nat (S n))) with true
        by (symmetry; apply andb_true_iff; split;
            [apply Z.leb_le|apply Z.ltb_lt]; lia).
      reflexivity.
    + apply Z.eqb_neq in Eq.
      replace ((lo + 1 <=? ix) && (ix <? lo + 1 + Z.of_nat n))
        with ((lo <=? ix) && (ix <? lo + Z.of_nat (S n))); [reflexivity|].
      destruct (lo <=? ix) eqn:A, (ix <? lo + Z.of_nat (S n)) eqn:B,
               (lo + 1 <=? ix) eqn:C, (ix <? lo + 1 + Z.of_nat n) eqn:D;
        try reflexivity;
        rewrite ?Z.leb_le, ?Z.leb_gt, ?Z.ltb_lt, ?Z.ltb_ge in *; lia.
Qed.

(** C3 fails on a slot that received no pulse: its count is 0, and
    [endJob] leaves in each of its bins and in its overflow cell the
    quotient 0/0 of the empty sum by the count, which is not a number. *)
Lemma C3_counterexample_empty_slot_is_divided_by_zero :
  navspes (new_slot flat_cfg) = 0 /\
  avgspe (new_slot flat_cfg) = [0; 0; 0; 0]%float /\
  endJob [new_slot flat_cfg] =
    [{| avgspe := [0; 0 / int_to_double 0; 0 / int_to_double 0;
                   0 / int_to_double 0]%float;
        amp := []; navspes := 0 |}] /\
  PrimFloat.is_nan (0 / int_to_double 0) = true.
Proof. by_evaluation. Qed.

(** C3 amended: for every slot, whatever its pulse count, zero included,
    [endJob] keeps the count and replaces the content of every bin and of
    the overflow cell of the running sum by that content divided by the
    count converted to [double]; no test of the count guards the
    division. *)
Theorem C3_every_bin_is_divided_by_the_count
  (slots : list Slot) (ihist : nat) (s : Slot) (ix : Z) :
  nth_error slots ihist = Some s ->
  1 <= ix < TH1D.GetSize (avgspe s) ->
  exists s',
    nth_error (endJob slots) ihist = Some s' /\
    navspes s' = navspes s /\
    TH1D.GetBinContent (avgspe s') ix =
      (TH1D.GetBinContent (avgspe s) ix / int_to_double (navspes s))%float.
Proof.
  intros Hs Hix. exists (normalise s). split; [|split].
  - unfold endJob. rewrite nth_error_map, Hs. reflexivity.
  - reflexivity.
  - unfold normalise. simpl avgspe. unfold range_le.
    rewrite normalise_loop by lia.
    replace ((1 <=? ix) &&
             (ix <? 1 + Z.of_nat (Z.to_nat (TH1D.GetSize (avgspe s) - 1 + 1))))
      with true; [reflexivity|].
    symmetry. apply andb_true_iff. split; [apply Z.leb_le|apply Z.ltb_lt]; lia.
Qed.

Lemma C3_witness :
  exists s',
    nth_error (endJob [new_slot flat_cfg]) 0 = Some s' /\
    navspes s' = navspes (new_slot flat_cfg) /\
    TH1D.GetBinContent (avgspe s') 1 =
      (TH1D.GetBinContent (avgspe (new_slot flat_cfg)) 1 /
       int_to_double (navspes (new_slot flat_cfg)))%float.
Proof.
  apply (C3_every_bin_is_divided_by_the_count [new_slot flat_cfg] 0
           (new_slot flat_cfg) 1).
  - reflexivity.
  - vm_compute. split; [discriminate|reflexivity].
Defined.

End EndJobClaims.
(** ** Further properties of the pulse scan *)

Module ScanMore.
Import Scan ScanSpec MoreSpec Inputs.

Local Arguments Z.mul : simpl never.

Lemma branch_counter wvfm_size thr adc s :
  counter (fst (branch wvfm_size thr thr adc s)) = counter s.
Proof.
  unfold branch.
  destruct (negb (fire s) && (thr <? adc)%float); [reflexivity|].
  destruct (fire s && (adc <? thr)%float); [reflexivity|].
  destruct (fire s); [|reflexivity].
  destruct (pulse_peak s <? adc)%float; reflexivity.
Qed.

Lemma loop_counter wvfm thr n : forall s s' evs,
  loop wvfm thr n s = Ok (s', evs) -> counter s' = counter s + Z.of_nat n.
Proof.
  induction n as [|n IH]; intros s s' evs H.
  - simpl in H. inversion H; subst. lia.
  - apply ScanFacts.loop_S in H. destruct H as (s1 & ev & evs' & Hs & Hl & ->).
    apply ScanFacts.step_Ok in Hs. destruct Hs as (adc & _ & -> & _).
    apply IH in Hl. rewrite Hl. simpl counter. rewrite branch_counter. lia.
Qed.

(** Unfolds a run into its loop. *)
Lemma run_Ok cfg wvfm thr failed0 s evs :
  run cfg wvfm thr failed0 = Ok (s, evs) ->
  exists s1, loop wvfm thr (iterations cfg wvfm) (init cfg failed0) = Ok (s1, evs) /\
             s = flush s1.
Proof.
  unfold run.
  destruct (loop wvfm thr (iterations cfg wvfm) (init cfg failed0))
    as [[s1 evs1]| |]; simpl; try discriminate.
  intros H; inversion H; subst. eauto.
Qed.

Lemma flush_count s : peak_count (flush s) = peak_count s.
Proof. unfold flush. destruct (fire s); reflexivity. Qed.

Lemma flush_failed s : Scan.failed (flush s) = Scan.failed s.
Proof. unfold flush. destruct (fire s); reflexivity. Qed.

Lemma flush_counter s : counter (flush s) = counter s.
Proof. unfold flush. destruct (fire s); reflexivity. Qed.

Lemma paced_step c0 wvfm_size thr adc s :
  paced c0 s -> paced c0 (finish (fst (branch wvfm_size thr thr adc s))).
Proof.
  intros (H0 & Hidle & Hfire). unfold branch.
  destruct (fire s) eqn:F; simpl.
  - destruct (Hfire eq_refl) as [Hp Hlt].
    destruct (adc <? thr)%float; simpl.
    + destruct (_ >? 2) eqn:E; unfold paced; simpl; repeat split;
        try discriminate; try lia.
      intros _. rewrite Z.gtb_ltb in E. apply Z.ltb_lt in E.
      destruct (counter s <? wvfm_size); lia.
    + destruct (pulse_peak s <? adc)%float; unfold paced; simpl; rewrite ?F;
        repeat split; try discriminate; try lia.
  - specialize (Hidle eq_refl).
    destruct (thr <? adc)%float; unfold paced; simpl; rewrite ?F;
      repeat split; try discriminate; try lia;
      destruct (counter s - 1 >? 0) eqn:E; lia.
Qed.

Lemma silent_step failed0 wvfm_size thr adc s :
  silent failed0 s -> silent failed0 (finish (fst (branch wvfm_size thr thr adc s))).
Proof.
  unfold silent, branch. intros H.
  destruct (negb (fire s) && (thr <? adc)%float); simpl.
  { intros Hc. destruct (peak_count s =? 200) eqn:E; [apply Z.eqb_eq in E; lia|auto]. }
  destruct (fire s && (adc <? thr)%float); simpl.
  { destruct (_ >? 2); intros Hc.
    - destruct (peak_count s + 1 =? 200) eqn:E; [apply Z.eqb_eq in E; lia|].
      apply H. lia.
    - destruct (peak_count s =? 200) eqn:E; [apply Z.eqb_eq in E; lia|auto]. }
  destruct (fire s); [destruct (pulse_peak s <? adc)%float|]; simpl;
    intros Hc; (destruct (peak_count s =? 200) eqn:E;
                [apply Z.eqb_eq in E; lia|auto]).
Qed.

Lemma invariant_loop (P : State -> Prop) wvfm thr
  (Hstep : forall adc s, In adc wvfm -> 0 <= counter s < size wvfm -> P s ->
                         P (finish (fst (branch (size wvfm) thr thr adc s)))) :
  forall n s s' evs, loop wvfm thr n s = Ok (s', evs) -> P s -> P s'.
Proof.
  induction n as [|n IH]; intros s s' evs H Hp.
  - simpl in H. inversion H; subst. exact Hp.
  - apply ScanFacts.loop_S in H. destruct H as (s1 & ev & evs' & Hs & Hl & ->).
    apply ScanFacts.step_Ok in Hs. destruct Hs as (adc & Ha & -> & _).
    eapply IH; eauto. apply Hstep; auto.
    + eapply lookupZ_Some_In; eauto.
    + eapply lookupZ_Some_range; eauto.
Qed.

(** Every pulse pushed takes three scanned samples, so the scan of a
    waveform pushes at most a third as many peaks as it scans samples;
    and as long as fewer than 200 peaks are pushed the failure tally is
    the one the scan was entered with.  A waveform with fewer than 600
    samples after the start offset never moves the tally in the scan. *)
Theorem scan_pushes_one_peak_per_three_samples
  (cfg : Config) (wvfm : list float) (thresh : float) (failed0 : Z) :
  0 <= fSpe_region_start cfg < 2 ^ 31 ->
  exists s evs,
    run cfg wvfm thresh failed0 = Ok (s, evs) /\
    0 <= peak_count s /\
    3 * peak_count s <= Z.max 0 (size wvfm - fSpe_region_start cfg) /\
    (peak_count s < 200 -> Scan.failed s = failed0) /\
    (size wvfm - fSpe_region_start cfg < 600 -> Scan.failed s = failed0).
Proof.
  intros Hs.
  destruct (ScanFacts.run_total cfg wvfm thresh failed0 Hs) as [[s evs] Hr].
  exists s, evs. split; [exact Hr|].
  apply run_Ok in Hr. destruct Hr as (s1 & L & ->).
  pose proof (loop_counter _ _ _ _ _ _ L) as Hc.
  assert (Hp : paced (fSpe_region_start cfg) s1).
  { eapply (invariant_loop (paced (fSpe_region_start cfg))); eauto.
    - intros. apply paced_step; assumption.
    - unfold paced; simpl. repeat split; try discriminate; lia. }
  assert (Hq : silent failed0 s1).
  { eapply (invariant_loop (silent failed0)); eauto.
    - intros. apply silent_step; assumption.
    - unfold silent; simpl. reflexivity. }
  rewrite flush_count, flush_failed.
  destruct Hp as (H0 & Hidle & Hfire).
  simpl in Hc. unfold iterations in Hc. rewrite Z.mod_small in Hc by lia.
  assert (Hbound : 3 * peak_count s1 <= Z.max 0 (size wvfm - fSpe_region_start cfg)).
  { destruct (fire s1) eqn:F.
    - destruct (Hfire eq_refl). lia.
    - specialize (Hidle eq_refl). lia. }
  repeat split; auto. intros Hshort. apply Hq. lia.
Qed.

Lemma scan_pushes_one_peak_per_three_samples_witness :
  exists s evs,
    run scan_all (map int_to_double [0; 0; 5; 5; -5; 5; -5]) 1 7 = Ok (s, evs) /\
    0 <= peak_count s /\
    3 * peak_count s <=
      Z.max 0 (size (map int_to_double [0; 0; 5; 5; -5; 5; -5])
               - fSpe_region_start scan_all) /\
    (peak_count s < 200 -> Scan.failed s = 7) /\
    (size (map int_to_double [0; 0; 5; 5; -5; 5; -5])
     - fSpe_region_start scan_all < 600 -> Scan.failed s = 7).
Proof.
  apply (scan_pushes_one_peak_per_three_samples scan_all
           (map int_to_double [0; 0; 5; 5; -5; 5; -5]) 1 7).
  simpl. lia.
Defined.

Lemma quiet_step cfg failed0 wvfm_size thr adc s :
  (thr <? adc)%float = false ->
  quiet cfg failed0 s ->
  quiet cfg failed0 (finish (fst (branch wvfm_size thr thr adc s))) /\
  snd (branch wvfm_size thr thr adc s) = Idle.
Proof.
  intros Hq (F & C & L & Hf). unfold branch. rewrite F, Hq. simpl.
  unfold quiet; simpl. rewrite C. simpl. auto.
Qed.

Lemma quiet_loop cfg failed0 wvfm thr n : forall s s' evs,
  Forall (fun a => (thr <? a)%float = false) wvfm ->
  loop wvfm thr n s = Ok (s', evs) -> quiet cfg failed0 s ->
  quiet cfg failed0 s' /\ Forall (eq Idle) evs.
Proof.
  induction n as [|n IH]; intros s s' evs Hall H Hq.
  - simpl in H. inversion H; subst. auto.
  - apply ScanFacts.loop_S in H. destruct H as (s1 & ev & evs' & Hs & Hl & ->).
    apply ScanFacts.step_Ok in Hs. destruct Hs as (adc & Ha & -> & ->).
    assert (Hadc : (thr <? adc)%float = false).
    { rewrite Forall_forall in Hall. apply Hall. eapply lookupZ_Some_In; eauto. }
    destruct (quiet_step cfg failed0 (size wvfm) thr adc s Hadc Hq) as [Hq' Hev].
    destruct (IH _ _ _ Hall Hl Hq') as [Hq'' Hevs].
    split; [exact Hq''|]. constructor; [symmetry; exact Hev|exact Hevs].
Qed.

(** A waveform none of whose baseline-referenced samples exceeds the
    threshold has no pulse: every iteration of the scan is idle, no peak
    is pushed and the failure tally is not moved by the scan.  A NaN
    threshold makes every waveform such a waveform. *)
Theorem quiet_waveform_has_no_pulse
  (cfg : Config) (wvfm : list float) (thresh : float) (failed0 : Z) :
  0 <= fSpe_region_start cfg < 2 ^ 31 ->
  Forall (fun a => (thresh <? a)%float = false) wvfm ->
  exists s evs,
    run cfg wvfm thresh failed0 = Ok (s, evs) /\
    Forall (eq Idle) evs /\
    pulse_t_peak_v s = [] /\ peak_count s = 0 /\ Scan.failed s = failed0.
Proof.
  intros Hs Hall.
  destruct (ScanFacts.run_total cfg wvfm thresh failed0 Hs) as [[s evs] Hr].
  exists s, evs. split; [exact Hr|].
  apply run_Ok in Hr. destruct Hr as (s1 & L & ->).
  destruct (quiet_loop cfg failed0 _ _ _ _ _ _ Hall L) as [(F & C & Lp & Hf) Hevs].
  { unfold quiet; simpl; auto. }
  rewrite ScanOrder.flush_peaks, flush_count, flush_failed. auto.
Qed.

Lemma quiet_waveform_has_no_pulse_witness :
  exists s evs,
    run scan_all (map int_to_double [0; 1; -1; 3; 0]) 3 0 = Ok (s, evs) /\
    Forall (eq Idle) evs /\
    pulse_t_peak_v s = [] /\ peak_count s = 0 /\ Scan.failed s = 0.
Proof.
  apply (quiet_waveform_has_no_pulse scan_all
           (map int_to_double [0; 1; -1; 3; 0]) 3 0).
  - simpl. lia.
  - repeat constructor.
Defined.

Lemma inner_step c0 wvfm_size thr adc s :
  0 <= counter s < wvfm_size ->
  inner c0 wvfm_size s ->
  inner c0 wvfm_size (finish (fst (branch wvfm_size thr thr adc s))).
Proof.
  intros Hc (Hl & Hp & Hge & Hf). unfold branch.
  destruct (fire s) eqn:F; simpl.
  - specialize (Hf eq_refl).
    destruct (adc <? thr)%float; simpl.
    + unfold inner; simpl. repeat split; try discriminate; try lia.
      destruct (_ >? 2); [|exact Hl].
      apply Forall_app. split; [exact Hl|].
      constructor; [|constructor]. destruct Hp as [Hp|Hp]; [left; exact Hp|right; lia].
    + destruct (pulse_peak s <? adc)%float; unfold inner; simpl; rewrite ?F;
        repeat split; auto; try lia.
  - destruct (thr <? adc)%float; unfold inner; simpl; rewrite ?F;
      repeat split; auto; try discriminate; try lia.
Qed.

(** An accepted peak is a sample index of the waveform; it is either the
    initial 0 of a pulse none of whose samples was tracked, or an index
    scanned after the first sample scanned and before the last sample of
    the waveform: apart from that 0, neither the first sample scanned nor
    the last sample of the waveform is ever a peak. *)
Theorem accepted_peak_is_an_inner_sample
  (cfg : Config) (wvfm : list float) (thresh : float) (failed0 : Z) :
  0 <= fSpe_region_start cfg < 2 ^ 31 ->
  exists s evs,
    run cfg wvfm thresh failed0 = Ok (s, evs) /\
    Forall (fun p => 0 <= p < size wvfm /\
                     (p = 0 \/ fSpe_region_start cfg < p < size wvfm - 1))
           (pulse_t_peak_v s).
Proof.
  intros Hs.
  destruct (ScanFacts.run_total cfg wvfm thresh failed0 Hs) as [[s evs] Hr].
  exists s, evs. split; [exact Hr|].
  pose proof (ScanOrder.run_peaks_in_range _ _ _ _ _ _ Hr) as Hrange.
  apply run_Ok in Hr. destruct Hr as (s1 & L & ->).
  rewrite ScanOrder.flush_peaks in *.
  assert (Hi : inner (fSpe_region_start cfg) (size wvfm) s1).
  { eapply (invariant_loop (inner (fSpe_region_start cfg) (size wvfm))); eauto.
    - intros. apply inner_step; assumption.
    - unfold inner; simpl. repeat split; auto; try discriminate; lia. }
  destruct Hi as (Hl & _).
  rewrite Forall_forall in *. intros p Hp. split; auto.
Qed.

Lemma accepted_peak_is_an_inner_sample_witness :
  exists s evs,
    run scan_all (map int_to_double [0; 0; 5; 7; -5; 5; 6; 9; -5]) 1 0 = Ok (s, evs) /\
    Forall (fun p => 0 <= p < size (map int_to_double [0; 0; 5; 7; -5; 5; 6; 9; -5]) /\
                     (p = 0 \/ fSpe_region_start scan_all < p <
                               size (map int_to_double [0; 0; 5; 7; -5; 5; 6; 9; -5]) - 1))
           (pulse_t_peak_v s).
Proof.
  apply (accepted_peak_is_an_inner_sample scan_all
           (map int_to_double [0; 0; 5; 7; -5; 5; 6; 9; -5]) 1 0).
  simpl. lia.
Defined.

End ScanMore.

(** ** Further properties of the noise analysis *)

Module NoiseMore.
Import Noise MoreSpec Inputs MoreInputs.

Lemma bind_Ok {A B : Type} (m : outcome A) (k : A -> outcome B) (b : B) :
  bind m k = Ok b -> exists a, m = Ok a /\ k a = Ok b.
Proof. destruct m; simpl; try discriminate. eauto. Qed.

(** The steps of an analysis that ends normally. *)
Lemma analysis_Ok cfg wvf r :
  analysis cfg wvf = Ok r ->
  exists b tm tv v,
    bins cfg wvf = Ok b /\ total_m wvf b = Ok tm /\
    totalvar (subtract (fst tm / int_to_double (snd tm)) wvf) b = Ok tv /\
    lookupZ (subtract (fst tm / int_to_double (snd tm)) wvf) (snd (highest wvf))
      = Some v /\
    r = {| mean := (fst tm / int_to_double (snd tm))%float;
           wvfm := subtract (fst tm / int_to_double (snd tm)) wvf;
           stdev := PrimFloat.sqrt (tv / int_to_double (snd tm));
           thresh := (PrimFloat.sqrt (tv / int_to_double (snd tm))
                      * int_to_double (fNstdev cfg))%float |}.
Proof.
  unfold analysis. intros H.
  apply bind_Ok in H. destruct H as (b & Hb & H).
  apply bind_Ok in H. destruct H as (tm & Htm & H).
  apply bind_Ok in H. destruct H as (tv & Htv & H).
  apply bind_Ok in H. destruct H as (v & Hv & H).
  inversion H; subst. exists b, tm, tv, v. repeat split; auto.
  unfold at_ in Hv.
  destruct (lookupZ (subtract (fst tm / int_to_double (snd tm)) wvf)
                    (snd (highest wvf))); [congruence|discriminate].
Qed.

Lemma round_aux_unsigned m e l :
  unsigned_value (binary_round_aux prec emax false m e l).
Proof.
  unfold binary_round_aux.
  destruct (shr_fexp prec emax m e l) as [mrs' e'].
  destruct (shr_fexp prec emax _ e' loc_Exact) as [mrs'' e''].
  destruct (shr_m mrs''); simpl; auto;
    destruct (e'' <=? _); simpl; auto.
Qed.

Lemma sqrt_unsigned x : unsigned_value (Prim2SF (PrimFloat.sqrt x)).
Proof.
  rewrite FloatAxioms.sqrt_spec. unfold FloatAxioms.SF64sqrt, SFsqrt.
  destruct (Prim2SF x) as [s|[|]| |[|] m e]; simpl; auto.
  destruct (SFsqrt_core_binary prec emax (Z.pos m) e) as [[mz ez] lz].
  apply round_aux_unsigned.
Qed.

Lemma int_to_double_unsigned z :
  0 <= z -> unsigned_value (Prim2SF (int_to_double z)).
Proof.
  intros Hz. unfold int_to_double.
  destruct (z <? 0) eqn:E; [apply Z.ltb_lt in E; lia|].
  rewrite FloatAxioms.of_uint63_spec. unfold binary_normalize.
  pose proof (Uint63.to_Z_bounded (Uint63.of_Z z)) as Hb.
  destruct (Uint63.to_Z (Uint63.of_Z z)) as [|p|p]; simpl; auto; [|lia].
  unfold binary_round.
  destruct (shl_align p 0 _) as [mz ez]. apply round_aux_unsigned.
Qed.

Lemma mul_unsigned x y :
  unsigned_value (Prim2SF x) -> unsigned_value (Prim2SF y) ->
  unsigned_value (Prim2SF (x * y)).
Proof.
  rewrite FloatAxioms.mul_spec. unfold FloatAxioms.SF64mul, SFmul.
  destruct (Prim2SF x) as [sx|sx| |sx mx ex], (Prim2SF y) as [sy|sy| |sy my ey];
    simpl; auto; intros; subst; simpl; auto.
  apply round_aux_unsigned.
Qed.

Lemma unsigned_not_below_zero x :
  unsigned_value (Prim2SF x) -> (x <? 0)%float = false.
Proof.
  rewrite FloatAxioms.ltb_spec. change (Prim2SF 0) with (S754_zero false).
  unfold SFltb, SFcompare.
  destruct (Prim2SF x) as [s|s| |s m e]; simpl; auto; intros ->; reflexivity.
Qed.

(** The noise deviation of an analysis that ends normally is never below
    zero (it is a zero, a positive value or a NaN), and neither is the
    threshold when the number of deviations configured is not negative. *)
Theorem deviation_and_threshold_are_never_negative
  (cfg : Config) (wvf : list Z) (r : Result) :
  analysis cfg wvf = Ok r ->
  (stdev r <? 0)%float = false /\
  (0 <= fNstdev cfg -> (thresh r <? 0)%float = false).
Proof.
  intros H. apply analysis_Ok in H.
  destruct H as (b & tm & tv & v & _ & _ & _ & _ & ->). simpl. split.
  - apply unsigned_not_below_zero, sqrt_unsigned.
  - intros Hn. apply unsigned_not_below_zero, mul_unsigned.
    + apply sqrt_unsigned.
    + apply int_to_double_unsigned. exact Hn.
Qed.

Lemma deviation_and_threshold_are_never_negative_witness :
  (stdev flat_result <? 0)%float = false /\
  (0 <= fNstdev flat_cfg -> (thresh flat_result <? 0)%float = false).
Proof.
  apply (deviation_and_threshold_are_never_negative flat_cfg flat_wvf flat_result).
  vm_compute. reflexivity.
Defined.

(** An analysis that ends normally has read inside the waveform only:
    the second noise window starts past the end of the waveform, so that
    neither the mean nor the variance takes a sample from it; the first
    window lies in the waveform and its samples alone make the mean; the
    waveform has a lowest sample; and the baseline-referenced waveform
    has one sample for each sample of the waveform. *)
Theorem defined_analysis_uses_the_first_window_only
  (cfg : Config) (wvf : list Z) (r : Result) :
  analysis cfg wvf = Ok r ->
  exists b tm,
    bins cfg wvf = Ok b /\
    size wvf < noisebin2min b /\
    mean_region2 b (size wvf) = [] /\
    var_region2 b (size wvf) = [] /\
    Forall (fun i => 0 <= i < size wvf) (mean_region1 b) /\
    total_m wvf b = Ok tm /\
    snd tm = Z.of_nat (length (mean_region1 b)) /\
    mean r = (fst tm / int_to_double (snd tm))%float /\
    0 <= snd (highest wvf) < size wvf /\
    length (wvfm r) = length wvf.
Proof.
  intros H. apply analysis_Ok in H.
  destruct H as (b & tm & tv & v & Hb & Htm & _ & Hv & ->). simpl.
  exists b, tm. split; [exact Hb|].
  destruct (NoiseClaims.defined_mean_has_no_second_window wvf b tm Htm)
    as (E1 & E2 & Hm).
  assert (Hgt : size wvf < noisebin2min b).
  { destruct (Z_lt_le_dec (size wvf) (noisebin2min b)) as [Hlt|Hle]; [exact Hlt|].
    exfalso.
    eapply (proj2 (NoiseClaims.mean_region2_reaches_size wvf b Hle)); eauto. }
  assert (Hr1 : Forall (fun i => 0 <= i < size wvf) (mean_region1 b)).
  { unfold total_m in Htm. apply bind_Ok in Htm.
    destruct Htm as (acc & Hacc & _).
    apply NoiseClaims.total_loop_Ok in Hacc. apply Hacc. }
  apply lookupZ_Some_range in Hv.
  unfold subtract, size in *. rewrite length_map in *.
  repeat split; auto; lia.
Qed.

Lemma defined_analysis_uses_the_first_window_only_witness :
  exists b tm,
    bins flat_cfg flat_wvf = Ok b /\
    size flat_wvf < noisebin2min b /\
    mean_region2 b (size flat_wvf) = [] /\
    var_region2 b (size flat_wvf) = [] /\
    Forall (fun i => 0 <= i < size flat_wvf) (mean_region1 b) /\
    total_m flat_wvf b = Ok tm /\
    snd tm = Z.of_nat (length (mean_region1 b)) /\
    mean flat_result = (fst tm / int_to_double (snd tm))%float /\
    0 <= snd (highest flat_wvf) < size flat_wvf /\
    length (wvfm flat_result) = length flat_wvf.
Proof.
  apply (defined_analysis_uses_the_first_window_only flat_cfg flat_wvf flat_result).
  vm_compute. reflexivity.
Defined.

Lemma double_to_int_cases x :
  (exists z, double_to_int x = Ok z) \/ double_to_int x = Undefined.
Proof.
  unfold double_to_int.
  destruct (Prim2SF x) as [s|s| |s m e]; eauto.
  destruct (_ && _); eauto.
Qed.

Lemma times_zero_truncates_to_zero f z :
  double_to_int (f * 0) = Ok z -> z = 0.
Proof.
  unfold double_to_int. rewrite FloatAxioms.mul_spec.
  change (Prim2SF 0) with (S754_zero false).
  unfold FloatAxioms.SF64mul, SFmul.
  destruct (Prim2SF f) as [s|s| |s m e]; simpl; congruence.
Qed.

Lemma total_loop_on_empty (l : list Z) acc :
  foldM (total_body []) l acc = Undefined \/ l = [].
Proof.
  destruct l as [|i l]; [right; reflexivity|left].
  simpl. unfold total_body, index, lookupZ.
  destruct (i <? 0); [reflexivity|].
  destruct (Z.to_nat i); reflexivity.
Qed.

(** A waveform without samples is never analysed: whatever the
    configuration, the noise analysis leaves the defined behaviour of the
    program, in a conversion of a window bound to [Int_t] or in a read of
    the empty vector by one of the two loops of the mean (the second
    reads [wvf[0]] whenever the first has read nothing). *)
Theorem empty_waveform_is_undefined (cfg : Config) :
  analysis cfg [] = Undefined.
Proof.
  unfold analysis, bins. simpl highest. simpl snd.
  change (size (@nil Z)) with 0. change (int_to_double 0) with 0%float.
  destruct (double_to_int_cases (fNbmin_factor cfg * int_to_double (-1)))
    as [[bmin ->]| ->]; [|reflexivity].
  destruct (double_to_int_cases (fNbmax_factor cfg * int_to_double (-1)))
    as [[bmax ->]| ->]; [|reflexivity].
  destruct (double_to_int_cases (fN2bmin_factor cfg * 0))
    as [[b2 Hb2]| ->]; [|reflexivity].
  pose proof (times_zero_truncates_to_zero _ _ Hb2). subst b2.
  rewrite Hb2. cbn [bind]. unfold total_m.
  match goal with |- context [foldM (total_body []) (mean_region1 ?b) ?a] =>
    destruct (total_loop_on_empty (mean_region1 b) a) as [E|E]; rewrite E end;
    reflexivity.
Qed.

End NoiseMore.

(** ** Further properties of the average SPE shape *)

Module ShapeMore.
Import Shape MoreSpec Inputs.

Lemma GetSize_Add (h : TH1D.t) bin w :
  TH1D.GetSize (TH1D.AddBinContent h bin w) = TH1D.GetSize h.
Proof.
  unfold TH1D.AddBinContent, TH1D.GetSize, size.
  destruct ((0 <=? bin) && (bin <? Z.of_nat (length h))); [|reflexivity].
  rewrite EndJobClaims.update_length. reflexivity.
Qed.

Lemma Get_Add (h : TH1D.t) bin w ix :
  0 <= ix < TH1D.GetSize h ->
  TH1D.GetBinContent (TH1D.AddBinContent h bin w) ix =
    if ix =? bin then (TH1D.GetBinContent h ix + w)%float
    else TH1D.GetBinContent h ix.
Proof.
  intros Hix.
  rewrite EndJobClaims.Get_in_range by (rewrite GetSize_Add; exact Hix).
  rewrite (EndJobClaims.Get_in_range h ix Hix).
  unfold TH1D.AddBinContent.
  destruct ((0 <=? bin) && (bin <? TH1D.GetSize h)) eqn:E.
  - apply andb_true_iff in E. destruct E as [E0 E1].
    apply Z.leb_le in E0. apply Z.ltb_lt in E1.
    rewrite EndJobClaims.nth_update by (unfold TH1D.GetSize, size in Hix; lia).
    destruct (ix =? bin) eqn:Eb.
    + apply Z.eqb_eq in Eb. subst. rewrite Nat.eqb_refl. reflexivity.
    + apply Z.eqb_neq in Eb.
      destruct (Nat.eqb (Z.to_nat ix) (Z.to_nat bin)) eqn:En; [|reflexivity].
      apply Nat.eqb_eq in En. lia.
  - destruct (ix =? bin) eqn:Eb; [|reflexivity].
    apply Z.eqb_eq in Eb. subst. exfalso.
    apply andb_false_iff in E. destruct E as [E|E].
    + apply Z.leb_gt in E. lia.
    + apply Z.ltb_ge in E. lia.
Qed.

(** The loop of lines 531-534 over the bins from [lo]: it ends normally
    when its reads lie in the waveform, and then a bin it visits has
    gained the sample read for it and any other cell is as it was. *)
Lemma add_loop_cells cfg wvfm peakbin (n : nat) : forall lo h,
  (forall j, lo <= j < lo + Z.of_nat n ->
             0 <= peakbin - fLowbin cfg + j < size wvfm) ->
  exists h',
    foldM (add_body cfg wvfm peakbin) (zseq lo n) h = Ok h' /\
    TH1D.GetSize h' = TH1D.GetSize h /\
    forall ix, 0 <= ix < TH1D.GetSize h ->
      (lo <= ix < lo + Z.of_nat n ->
       exists v, lookupZ wvfm (peakbin - fLowbin cfg + ix) = Some v /\
                 TH1D.GetBinContent h' ix = (TH1D.GetBinContent h ix + v)%float) /\
      (~ lo <= ix < lo + Z.of_nat n ->
       TH1D.GetBinContent h' ix = TH1D.GetBinContent h ix).
Proof.
  induction n as [|n IH]; intros lo h Hr.
  - exists h. simpl. repeat split; auto. lia.
  - destruct (lookupZ_in_range wvfm (peakbin - fLowbin cfg + lo)) as [v Hv].
    { apply Hr. lia. }
    destruct (IH (lo + 1) (TH1D.AddBinContent h lo v)) as (h' & Hf & Hs & Hc).
    { intros j Hj. apply Hr. lia. }
    exists h'. simpl foldM. unfold add_body at 1, index. rewrite Hv. simpl bind.
    rewrite GetSize_Add in Hs, Hc. repeat split; auto.
    + intros Hin. destruct (Z.eq_dec ix lo) as [->|Hne].
      * exists v. split; [exact Hv|].
        rewrite (proj2 (Hc lo H)) by lia.
        rewrite Get_Add by exact H. rewrite Z.eqb_refl. reflexivity.
      * destruct (proj1 (Hc ix H)) as (v' & Hv' & Hg); [lia|].
        exists v'. split; [exact Hv'|]. rewrite Hg, Get_Add by exact H.
        replace (ix =? lo) with false by (symmetry; apply Z.eqb_neq; exact Hne).
        reflexivity.
    + intros Hout. rewrite (proj2 (Hc ix H)) by lia.
      rewrite Get_Add by exact H.
      replace (ix =? lo) with false by (symmetry; apply Z.eqb_neq; lia).
      reflexivity.
Qed.

(** The window one pulse adds: for a peak whose reads lie in the waveform
    and a histogram of [NBINS] bins, bin [j] of the running sum, for [j]
    from 1 to [NBINS], gains the baseline-referenced sample at
    [peakbin - fLowbin + j] (so the samples from [peakbin - fLowbin + 1] to
    [peakbin + fHibin + 1], in this order); the underflow and overflow
    cells are not touched. *)
Theorem pulse_adds_the_window_one_bin_after
  (cfg : Config) (wvfm : list float) (peakbin : Z) (h : TH1D.t) (j : Z) :
  TH1D.GetSize h = NBINS cfg + 2 ->
  0 <= peakbin - fLowbin cfg ->
  peakbin + fHibin cfg + 1 < size wvfm ->
  1 <= j <= NBINS cfg ->
  exists h' v,
    add_pulse cfg wvfm peakbin h = Ok h' /\
    lookupZ wvfm (peakbin - fLowbin cfg + j) = Some v /\
    TH1D.GetBinContent h' j = (TH1D.GetBinContent h j + v)%float /\
    TH1D.GetBinContent h' 0 = TH1D.GetBinContent h 0 /\
    TH1D.GetBinContent h' (NBINS cfg + 1) = TH1D.GetBinContent h (NBINS cfg + 1) /\
    TH1D.GetSize h' = TH1D.GetSize h.
Proof.
  intros Hsz Hlo Hhi Hj. unfold add_pulse, range_le.
  destruct (add_loop_cells cfg wvfm peakbin (Z.to_nat (NBINS cfg - 1 + 1)) 1 h)
    as (h' & Hf & Hs & Hc).
  { intros i Hi. unfold NBINS in *. lia. }
  destruct (proj1 (Hc j ltac:(lia))) as (v & Hv & Hg); [lia|].
  exists h', v. repeat split; auto.
  - apply (proj2 (Hc 0 ltac:(lia))). lia.
  - apply (proj2 (Hc (NBINS cfg + 1) ltac:(lia))). lia.
Qed.

Lemma pulse_adds_the_window_one_bin_after_witness :
  exists h' v,
    add_pulse scan_all ramp 5 (avgspe (new_slot scan_all)) = Ok h' /\
    lookupZ ramp (5 - fLowbin scan_all + 1) = Some v /\
    TH1D.GetBinContent h' 1 =
      (TH1D.GetBinContent (avgspe (new_slot scan_all)) 1 + v)%float /\
    TH1D.GetBinContent h' 0 = TH1D.GetBinContent (avgspe (new_slot scan_all)) 0 /\
    TH1D.GetBinContent h' (NBINS scan_all + 1) =
      TH1D.GetBinContent (avgspe (new_slot scan_all)) (NBINS scan_all + 1) /\
    TH1D.GetSize h' = TH1D.GetSize (avgspe (new_slot scan_all)).
Proof.
  apply (pulse_adds_the_window_one_bin_after scan_all ramp 5
           (avgspe (new_slot scan_all)) 1).
  - reflexivity.
  - vm_compute. discriminate.
  - reflexivity.
  - vm_compute. split; discriminate.
Defined.

(** The loop of lines 531-534 never throws: it ends normally or reads
    outside the waveform. *)
Lemma add_loop_outcome cfg wvfm peakbin (l : list Z) : forall h,
  (exists h', foldM (add_body cfg wvfm peakbin) l h = Ok h' /\
              TH1D.GetSize h' = TH1D.GetSize h) \/
  foldM (add_body cfg wvfm peakbin) l h = Undefined.
Proof.
  induction l as [|j l IH]; intros h; simpl.
  - left. eauto.
  - unfold add_body at 1 3, index.
    destruct (lookupZ wvfm (peakbin - fLowbin cfg + j)) as [v|]; simpl; [|auto].
    destruct (IH (TH1D.AddBinContent h j v)) as [(h' & Hf & Hs)|Hu]; [left|right; auto].
    exists h'. rewrite GetSize_Add in Hs. auto.
Qed.

Lemma add_pulse_Undefined cfg wvfm peakbin h :
  1 <= NBINS cfg -> 0 <= peakbin - fLowbin cfg ->
  size wvfm <= peakbin + fHibin cfg + 1 ->
  add_pulse cfg wvfm peakbin h = Undefined.
Proof.
  intros Hn Hlo Hhi.
  destruct (add_loop_outcome cfg wvfm peakbin (range_le 1 (NBINS cfg)) h)
    as [(h' & Hf & _)|Hu]; [|exact Hu].
  exfalso. pose proof (ShapeClaims.add_pulse_reads cfg wvfm peakbin h h' Hf
                         (peakbin + fHibin cfg + 1)) as Hr.
  unfold NBINS in Hn. lia.
Qed.

Lemma add_pulse_Ok cfg wvfm peakbin h :
  0 <= peakbin - fLowbin cfg -> peakbin + fHibin cfg + 1 < size wvfm ->
  exists h', add_pulse cfg wvfm peakbin h = Ok h' /\
             TH1D.GetSize h' = TH1D.GetSize h.
Proof.
  intros Hlo Hhi. unfold add_pulse, range_le.
  destruct (add_loop_cells cfg wvfm peakbin (Z.to_nat (NBINS cfg - 1 + 1)) 1 h)
    as (h' & Hf & Hs & _); [|eauto].
  intros i Hi. unfold NBINS in *. lia.
Qed.

Lemma out_of_bounds_false cfg n p :
  out_of_bounds cfg n p = false -> 0 <= p - fLowbin cfg /\ p + fHibin cfg <= n.
Proof.
  unfold out_of_bounds. intros H. apply orb_false_iff in H. destruct H as [H1 H2].
  apply Z.ltb_ge in H1. rewrite Z.gtb_ltb in H2. apply Z.ltb_ge in H2. lia.
Qed.

Lemma peaks_loop cfg wvfm (all : list Z) (l : list Z) : forall s,
  1 <= NBINS cfg ->
  if forallb (fun p => p + fHibin cfg + 1 <? size wvfm) (in_bounds cfg (size wvfm) l)
  then exists s',
         foldM (peak_body cfg wvfm all) l s = Ok s' /\
         navspes s' = navspes s + Z.of_nat (length (in_bounds cfg (size wvfm) l)) /\
         amp s' = amp s /\
         TH1D.GetSize (avgspe s') = TH1D.GetSize (avgspe s)
  else foldM (peak_body cfg wvfm all) l s = Undefined.
Proof.
  induction l as [|p l IH]; intros s Hn.
  - simpl. exists s. repeat split; auto. lia.
  - unfold in_bounds in *. simpl filter. simpl foldM. unfold peak_body at 1 3.
    destruct (out_of_bounds cfg (size wvfm) p) eqn:Hb; simpl negb; cbv iota.
    + simpl bind. apply IH. exact Hn.
    + rewrite ShapeClaims.selected_always.
      apply out_of_bounds_false in Hb. destruct Hb as [Hlo Hhi].
      simpl forallb.
      destruct (p + fHibin cfg + 1 <? size wvfm) eqn:Hsafe; simpl andb.
      * apply Z.ltb_lt in Hsafe.
        destruct (add_pulse_Ok cfg wvfm p (avgspe s) Hlo Hsafe) as (h' & Hh & Hs).
        rewrite Hh. simpl bind.
        specialize (IH {| avgspe := h'; amp := amp s; navspes := navspes s + 1 |} Hn).
        destruct (forallb _ _); [|exact IH].
        destruct IH as (s' & Hf & Hc & Ha & Hg). exists s'. simpl in *.
        repeat split; auto; try lia; try congruence.
      * apply Z.ltb_ge in Hsafe.
        rewrite (add_pulse_Undefined cfg wvfm p (avgspe s) Hn Hlo Hsafe).
        reflexivity.
Qed.

(** What the shape stage does to a slot.  With at least one bin in the
    window, the stage ends normally exactly when every peak that passes
    the boundary check has its last read, at [peak + fHibin + 1], inside
    the waveform (the check itself lets [peak + fHibin] reach the length
    of the waveform); it then has raised the pulse counter by the number
    of peaks that pass the check, and has left the amplitudes and the
    number of cells of the running sum as they were.  Otherwise it reads
    outside the waveform; it never throws. *)
Theorem shape_stage_counts_the_peaks_in_bounds
  (cfg : Config) (wvfm : list float) (wvf_spet : list Z) (s : Slot) :
  fDo_avgspe cfg = true ->
  1 <= NBINS cfg ->
  if forallb (fun p => p + fHibin cfg + 1 <? size wvfm)
             (in_bounds cfg (size wvfm) wvf_spet)
  then exists s',
         stage cfg wvfm wvf_spet s = Ok s' /\
         navspes s' = navspes s +
                      Z.of_nat (length (in_bounds cfg (size wvfm) wvf_spet)) /\
         amp s' = amp s /\
         TH1D.GetSize (avgspe s') = TH1D.GetSize (avgspe s)
  else stage cfg wvfm wvf_spet s = Undefined.
Proof.
  intros Hd Hn. unfold stage. rewrite Hd. apply peaks_loop. exact Hn.
Qed.

Lemma shape_stage_counts_the_peaks_in_bounds_witness :
  if forallb (fun p => p + fHibin scan_all + 1 <? size ramp)
             (in_bounds scan_all (size ramp) [1; 5; 6])
  then exists s',
         stage scan_all ramp [1; 5; 6] (new_slot scan_all) = Ok s' /\
         navspes s' = navspes (new_slot scan_all) +
                      Z.of_nat (length (in_bounds scan_all (size ramp) [1; 5; 6])) /\
         amp s' = amp (new_slot scan_all) /\
         TH1D.GetSize (avgspe s') = TH1D.GetSize (avgspe (new_slot scan_all))
  else stage scan_all ramp [1; 5; 6] (new_slot scan_all) = Undefined.
Proof.
  apply (shape_stage_counts_the_peaks_in_bounds scan_all ramp [1; 5; 6]
           (new_slot scan_all)).
  - reflexivity.
  - vm_compute. discriminate.
Defined.

End ShapeMore.

(** ** Properties of the integral analysis *)

Module IntegralMore.
Import Integral MoreSpec Inputs MoreInputs.

(** What a bound search that ends normally has found: it stopped at the
    first step whose value is not above the level, and every step before
    it read a value above the level. *)
Lemma search_Ok wvfm thr peakbin dir (fuel : nat) : forall k val r,
  search wvfm thr peakbin dir fuel k val = Ok r ->
  k <= r /\
  (r = k -> (thr <? val)%float = false) /\
  (k < r -> (thr <? val)%float = true /\
            exists v, lookupZ wvfm (peakbin + dir * r) = Some v /\
                      (thr <? v)%float = false) /\
  (forall j, k < j < r ->
             exists v, lookupZ wvfm (peakbin + dir * j) = Some v /\
                       (thr <? v)%float = true).
Proof.
  induction fuel as [|fuel IH]; intros k val r H; simpl in H.
  - destruct (thr <? val)%float eqn:E; [discriminate|].
    inversion H; subst. repeat split; auto; lia.
  - destruct (thr <? val)%float eqn:E.
    + unfold at_ in H.
      destruct (lookupZ wvfm (peakbin + dir * (k + 1))) as [v|] eqn:Hv;
        simpl in H; [|discriminate].
      apply IH in H. destruct H as (Hle & Hstop & Hgo & Hall).
      repeat split; try lia.
      * destruct (Z.eq_dec r (k + 1)) as [->|Hne].
        -- exists v. split; [exact Hv|apply Hstop; reflexivity].
        -- apply Hgo. lia.
      * intros j Hj. destruct (Z.eq_dec j (k + 1)) as [->|Hne].
        -- exists v. split; [exact Hv|].
           destruct (Z.eq_dec r (k + 1)); [lia|]. apply Hgo. lia.
        -- apply Hall. lia.
    + inversion H; subst. repeat split; auto; lia.
Qed.

(** The fuel of a search is never used up: one more pass changes
    nothing once the passes left reach the end of the waveform. *)
Lemma search_fuel wvfm thr peakbin dir (fuel : nat) : forall k val,
  dir = 1 \/ dir = -1 -> 0 <= peakbin < size wvfm -> 0 <= k ->
  size wvfm <= k + Z.of_nat fuel ->
  search wvfm thr peakbin dir (S fuel) k val =
  search wvfm thr peakbin dir fuel k val.
Proof.
  induction fuel as [|fuel IH]; intros k val Hd Hp Hk Hf.
  - simpl. destruct (thr <? val)%float; [|reflexivity].
    unfold at_.
    destruct (lookupZ wvfm (peakbin + dir * (k + 1))) as [v|] eqn:Hv;
      [|reflexivity].
    apply lookupZ_Some_range in Hv. destruct Hd; subst; lia.
  - change (search wvfm thr peakbin dir (S (S fuel)) k val)
      with (if (thr <? val)%float
            then val' <- at_ wvfm (peakbin + dir * (k + 1)) ;;
                 search wvfm thr peakbin dir (S fuel) (k + 1) val'
            else Ok k).
    change (search wvfm thr peakbin dir (S fuel) k val)
      with (if (thr <? val)%float
            then val' <- at_ wvfm (peakbin + dir * (k + 1)) ;;
                 search wvfm thr peakbin dir fuel (k + 1) val'
            else Ok k).
    destruct (thr <? val)%float; [|reflexivity].
    destruct (at_ wvfm (peakbin + dir * (k + 1))) as [v| |]; simpl; auto.
    apply IH; auto; lia.
Qed.

(** A search whose values stay above the level up to the end of the
    waveform steps past the end, and [at] throws. *)
Lemma search_runs_off wvfm thr peakbin dir (n : nat) : forall k val fuel,
  dir = 1 \/ dir = -1 ->
  (thr <? val)%float = true ->
  (forall j, k < j <= k + Z.of_nat n ->
             exists v, lookupZ wvfm (peakbin + dir * j) = Some v /\
                       (thr <? v)%float = true) ->
  lookupZ wvfm (peakbin + dir * (k + Z.of_nat n + 1)) = None ->
  (n < fuel)%nat ->
  search wvfm thr peakbin dir fuel k val = Throws.
Proof.
  induction n as [|n IH]; intros k val fuel Hd Hv Hall Hend Hf.
  - destruct fuel as [|fuel]; [lia|]. simpl. rewrite Hv.
    unfold at_. replace (k + 1) with (k + Z.of_nat 0 + 1) by lia.
    rewrite Hend. reflexivity.
  - destruct fuel as [|fuel]; [lia|]. simpl. rewrite Hv.
    destruct (Hall (k + 1)) as (v & Hl & Hgt); [lia|].
    unfold at_. rewrite Hl. simpl.
    apply IH; auto; try lia.
    + intros j Hj. apply Hall. lia.
    + replace (k + 1 + Z.of_nat n + 1) with (k + Z.of_nat (S n) + 1) by lia.
      exact Hend.
Qed.

Lemma search_outcome wvfm thr peakbin dir (fuel : nat) : forall k val,
  (exists r, search wvfm thr peakbin dir fuel k val = Ok r) \/
  search wvfm thr peakbin dir fuel k val = Throws.
Proof.
  induction fuel as [|fuel IH]; intros k val; simpl.
  - destruct (thr <? val)%float; eauto.
  - destruct (thr <? val)%float; [|eauto].
    unfold at_. destruct (lookupZ wvfm (peakbin + dir * (k + 1))); simpl; auto.
Qed.

Lemma plain_sum_empty wvfm peakbin :
  plain_sum wvfm peakbin (0 - 1) (0 - 1) = Ok 0%float.
Proof. reflexivity. Qed.

(** The integral of the zero and threshold modes without local baseline:
    when it ends normally on a peak whose sample is above the level, the
    bounds it summed between enclose the peak, every sample between them
    is above the level, and the sample next to each bound is not: the sum
    runs over the whole stretch above the level around the peak.  On a
    peak whose sample is not above the level it sums nothing and the
    integral is 0. *)
Theorem plain_integral_covers_the_stretch_above_the_level
  (wvfm : list float) (thr : float) (peakbin : Z) (integral : float) :
  plain_mode wvfm thr peakbin = Ok integral ->
  exists val ilo ihi,
    lookupZ wvfm peakbin = Some val /\
    plain_sum wvfm peakbin (ilo - 1) (ihi - 1) = Ok integral /\
    ((thr <? val)%float = false ->
     ilo = 0 /\ ihi = 0 /\ integral = 0%float) /\
    ((thr <? val)%float = true ->
     1 <= ilo /\ 1 <= ihi /\
     (forall j, - (ilo - 1) <= j <= ihi - 1 ->
                exists v, lookupZ wvfm (peakbin + j) = Some v /\
                          (thr <? v)%float = true) /\
     (exists v, lookupZ wvfm (peakbin - ilo) = Some v /\ (thr <? v)%float = false) /\
     (exists v, lookupZ wvfm (peakbin + ihi) = Some v /\ (thr <? v)%float = false)).
Proof.
  unfold plain_mode. intros H.
  apply NoiseMore.bind_Ok in H. destruct H as (val & Hval & H).
  apply NoiseMore.bind_Ok in H. destruct H as (ilo & Hlo & H).
  rewrite Hval in H. simpl in H.
  apply NoiseMore.bind_Ok in H. destruct H as (ihi & Hhi & H).
  unfold at_ in Hval.
  destruct (lookupZ wvfm peakbin) as [val'|] eqn:Hp; [|discriminate].
  inversion Hval; subst val'.
  apply search_Ok in Hlo. destruct Hlo as (Llo & Lstop & Lgo & Lall).
  apply search_Ok in Hhi. destruct Hhi as (Rlo & Rstop & Rgo & Rall).
  exists val, ilo, ihi. split; [reflexivity|]. split; [exact H|]. split.
  - intros Hnot.
    assert (ilo = 0).
    { destruct (Z.eq_dec ilo 0); [assumption|].
      destruct Lgo as [Hc _]; [lia|congruence]. }
    assert (ihi = 0).
    { destruct (Z.eq_dec ihi 0); [assumption|].
      destruct Rgo as [Hc _]; [lia|congruence]. }
    subst. rewrite plain_sum_empty in H. inversion H. auto.
  - intros Habove.
    assert (Hl : 1 <= ilo).
    { destruct (Z.eq_dec ilo 0) as [E|E]; [|lia].
      rewrite (Lstop E) in Habove. discriminate. }
    assert (Hr : 1 <= ihi).
    { destruct (Z.eq_dec ihi 0) as [E|E]; [|lia].
      rewrite (Rstop E) in Habove. discriminate. }
    repeat split; try assumption.
    + intros j Hj. destruct (Z.compare_spec j 0) as [->|Hneg|Hpos].
      * exists val. rewrite Z.add_0_r. auto.
      * destruct (Lall (- j)) as (v & Hv & Hgt); [lia|].
        exists v. replace (peakbin + j) with (peakbin + -1 * - j) by lia. auto.
      * destruct (Rall j) as (v & Hv & Hgt); [lia|].
        exists v. replace (peakbin + j) with (peakbin + 1 * j) by lia. auto.
    + destruct Lgo as (_ & v & Hv & Hle); [lia|].
      exists v. replace (peakbin - ilo) with (peakbin + -1 * ilo) by lia. auto.
    + destruct Rgo as (_ & v & Hv & Hle); [lia|].
      exists v. replace (peakbin + ihi) with (peakbin + 1 * ihi) by lia. auto.
Qed.

Lemma plain_integral_covers_the_stretch_above_the_level_witness :
  exists val ilo ihi,
    lookupZ bump 4 = Some val /\
    plain_sum bump 4 (ilo - 1) (ihi - 1) = Ok 90%float /\
    ((10 <? val)%float = false ->
     ilo = 0 /\ ihi = 0 /\ 90%float = 0%float) /\
    ((10 <? val)%float = true ->
     1 <= ilo /\ 1 <= ihi /\
     (forall j, - (ilo - 1) <= j <= ihi - 1 ->
                exists v, lookupZ bump (4 + j) = Some v /\
                          (10 <? v)%float = true) /\
     (exists v, lookupZ bump (4 - ilo) = Some v /\ (10 <? v)%float = false) /\
     (exists v, lookupZ bump (4 + ihi) = Some v /\ (10 <? v)%float = false)).
Proof.
  apply (plain_integral_covers_the_stretch_above_the_level bump 10 4 90).
  vm_compute. reflexivity.
Defined.

(** The edge the code marks at line 552: on a peak from which the
    baseline-referenced waveform stays above the level down to its first
    sample, or up to its last, the bound search steps out of the waveform
    and the integral ends in the exception of [at]. *)
Theorem plain_integral_throws_at_an_edge
  (wvfm : list float) (thr : float) (peakbin : Z) :
  0 <= peakbin < size wvfm ->
  (forall i, 0 <= i <= peakbin ->
             exists v, lookupZ wvfm i = Some v /\ (thr <? v)%float = true) \/
  (forall i, peakbin <= i < size wvfm ->
             exists v, lookupZ wvfm i = Some v /\ (thr <? v)%float = true) ->
  plain_mode wvfm thr peakbin = Throws.
Proof.
  intros Hp Hrun. unfold plain_mode.
  destruct (lookupZ_in_range wvfm peakbin Hp) as [val Hval].
  assert (Habove : (thr <? val)%float = true).
  { destruct Hrun as [Hrun|Hrun]; destruct (Hrun peakbin) as (v & Hv & Hgt);
      try lia; congruence. }
  unfold at_. rewrite Hval. simpl.
  destruct Hrun as [Hrun|Hrun].
  - rewrite (search_runs_off wvfm thr peakbin (-1) (Z.to_nat peakbin) 0 val);
      auto.
    + intros j Hj. apply Hrun. lia.
    + unfold lookupZ.
      replace (peakbin + -1 * (0 + Z.of_nat (Z.to_nat peakbin) + 1)) with (-1) by lia.
      reflexivity.
    + unfold size in Hp. lia.
  - destruct (search_outcome wvfm thr peakbin (-1) (length wvfm) 0 val)
      as [[r ->]| ->]; simpl; auto.
    rewrite (search_runs_off wvfm thr peakbin 1
               (Z.to_nat (size wvfm - 1 - peakbin)) 0 val); auto.
    + intros j Hj. apply Hrun. lia.
    + replace (peakbin + 1 * (0 + Z.of_nat (Z.to_nat (size wvfm - 1 - peakbin)) + 1))
        with (size wvfm) by lia.
      destruct (lookupZ wvfm (size wvfm)) eqn:E; [|reflexivity].
      apply lookupZ_Some_range in E. lia.
    + unfold size in *. lia.
Qed.

Lemma plain_integral_throws_at_an_edge_witness :
  plain_mode ledge 10 2 = Throws.
Proof.
  apply (plain_integral_throws_at_an_edge ledge 10 2).
  - vm_compute. split; [discriminate|reflexivity].
  - left. intros i Hi.
    assert (i = 0 \/ i = 1 \/ i = 2) as [->|[->| ->]] by lia;
      eexists; split; vm_compute; reflexivity.
Defined.

(** What a capped search has found when it ends normally: at most 50
    steps, each read inside the waveform, every value before the last
    step above the level. *)
Lemma search_capped_Ok wvfm thr bsl peakbin dir (fuel : nat) : forall k val r,
  0 <= k -> k + Z.of_nat fuel = 50 ->
  search_capped wvfm thr bsl peakbin dir fuel k val = Ok r ->
  k <= r <= 50 /\
  (r = k -> k < 50 -> (thr <? val)%float = false) /\
  (k < r -> (thr <? val)%float = true) /\
  (forall j, k < j < r ->
             exists v, lookupZ wvfm (peakbin + dir * j) = Some v /\
                       (thr <? v - bsl)%float = true).
Proof.
  induction fuel as [|fuel IH]; intros k val r Hk Hf H; simpl in H.
  - assert (r = k) by (destruct (thr <? val)%float; inversion H; reflexivity).
    subst. repeat split; try lia.
  - destruct (thr <? val)%float eqn:E.
    + unfold at_ in H.
      destruct (lookupZ wvfm (peakbin + dir * (k + 1))) as [v|] eqn:Hv;
        simpl in H; [|discriminate].
      destruct (k + 1 =? 50) eqn:E50.
      * apply Z.eqb_eq in E50. inversion H; subst. repeat split; try lia.
      * apply Z.eqb_neq in E50.
        apply IH in H; try lia. destruct H as (Hle & Hstop & Hgo & Hall).
        repeat split; try lia.
        intros j Hj. destruct (Z.eq_dec j (k + 1)) as [->|Hne].
        -- exists v. split; [exact Hv|]. apply Hgo. lia.
        -- apply Hall. lia.
    + inversion H; subst. repeat split; auto; lia.
Qed.

Lemma sum_empty wvfm bsl peakbin :
  sum wvfm bsl peakbin (0 - 1) (0 - 1) = Ok 0%float.
Proof. reflexivity. Qed.

(** The integral of the zero and threshold modes with local baseline:
    when it ends normally, each bound lies at most 50 steps from the peak,
    so that no sample further than 49 bins from the peak is summed; every
    sample summed, less the local baseline, is above the level; and on a
    peak that is not above the level once the baseline is taken off,
    nothing is summed and the integral is 0. *)
Theorem local_integral_stays_within_fifty_bins
  (wvfm : list float) (thr bsl : float) (peakbin : Z) (integral : float) :
  local_mode wvfm thr bsl peakbin = Ok integral ->
  exists val ilo ihi,
    lookupZ wvfm peakbin = Some val /\
    0 <= ilo <= 50 /\ 0 <= ihi <= 50 /\
    sum wvfm bsl peakbin (ilo - 1) (ihi - 1) = Ok integral /\
    ((thr <? val - bsl)%float = false ->
     ilo = 0 /\ ihi = 0 /\ integral = 0%float) /\
    ((thr <? val - bsl)%float = true ->
     1 <= ilo /\ 1 <= ihi /\
     forall j, - (ilo - 1) <= j <= ihi - 1 ->
               exists v, lookupZ wvfm (peakbin + j) = Some v /\
                         (thr <? v - bsl)%float = true).
Proof.
  unfold local_mode. intros H.
  apply NoiseMore.bind_Ok in H. destruct H as (val & Hval & H).
  apply NoiseMore.bind_Ok in H. destruct H as (ilo & Hlo & H).
  rewrite Hval in H. cbn [bind] in H.
  apply NoiseMore.bind_Ok in H. destruct H as (ihi & Hhi & H).
  unfold at_ in Hval.
  destruct (lookupZ wvfm peakbin) as [val'|] eqn:Hp; [|discriminate].
  inversion Hval; subst val'.
  apply search_capped_Ok in Hlo; try lia.
  destruct Hlo as (Llo & Lstop & Lgo & Lall).
  apply search_capped_Ok in Hhi; try lia.
  destruct Hhi as (Rlo & Rstop & Rgo & Rall).
  exists val, ilo, ihi. repeat split; try lia; try exact H.
  - destruct (Z.eq_dec ilo 0); [assumption|].
    rewrite Lgo in H0 by lia. discriminate.
  - destruct (Z.eq_dec ihi 0); [assumption|].
    rewrite Rgo in H0 by lia. discriminate.
  - assert (ilo = 0).
    { destruct (Z.eq_dec ilo 0); [assumption|].
      rewrite Lgo in H0 by lia. discriminate. }
    assert (ihi = 0).
    { destruct (Z.eq_dec ihi 0); [assumption|].
      rewrite Rgo in H0 by lia. discriminate. }
    subst. rewrite sum_empty in H. inversion H. reflexivity.
  - destruct (Z.eq_dec ilo 0) as [E|E]; [|lia].
    rewrite (Lstop E) in H0 by lia. discriminate.
  - destruct (Z.eq_dec ihi 0) as [E|E]; [|lia].
    rewrite (Rstop E) in H0 by lia. discriminate.
  - intros j Hj. destruct (Z.compare_spec j 0) as [->|Hneg|Hpos].
    + exists val. rewrite Z.add_0_r. auto.
    + destruct (Lall (- j)) as (v & Hv & Hgt); [lia|].
      exists v. replace (peakbin + j) with (peakbin + -1 * - j) by lia. auto.
    + destruct (Rall j) as (v & Hv & Hgt); [lia|].
      exists v. replace (peakbin + j) with (peakbin + 1 * j) by lia. auto.
Qed.

Lemma local_integral_stays_within_fifty_bins_witness :
  exists val ilo ihi,
    lookupZ bump 4 = Some val /\
    0 <= ilo <= 50 /\ 0 <= ihi <= 50 /\
    sum bump 2 4 (ilo - 1) (ihi - 1) = Ok 89%float /\
    ((0 <? val - 2)%float = false ->
     ilo = 0 /\ ihi = 0 /\ 89%float = 0%float) /\
    ((0 <? val - 2)%float = true ->
     1 <= ilo /\ 1 <= ihi /\
     forall j, - (ilo - 1) <= j <= ihi - 1 ->
               exists v, lookupZ bump (4 + j) = Some v /\
                         (0 <? v - 2)%float = true).
Proof.
  apply (local_integral_stays_within_fifty_bins bump 0 2 4 89).
  vm_compute. reflexivity.
Defined.

Lemma plain_loop_Ok cfg icfg wvfm stdev (l : list Z) : forall acc acc',
  foldM (plain_body cfg icfg wvfm stdev) l acc = Ok acc' ->
  size (integ0 (snd acc')) =
    size (integ0 (snd acc)) + size (in_bounds cfg (size wvfm) l) /\
  size (integ1 (snd acc')) =
    size (integ1 (snd acc)) + size (in_bounds cfg (size wvfm) l) /\
  size (integ2 (snd acc')) =
    size (integ2 (snd acc)) + size (in_bounds cfg (size wvfm) l) /\
  integ3 (snd acc') = integ3 (snd acc) /\
  integ4 (snd acc') = integ4 (snd acc) /\
  integ5 (snd acc') = integ5 (snd acc) /\
  avgspe (fst acc') = avgspe (fst acc) /\
  amp (fst acc') = amp (fst acc) /\
  navspes (fst acc') =
    navspes (fst acc) +
    (if negb (fDo_avgspe cfg) && negb (fDo_amp cfg)
     then size (in_bounds cfg (size wvfm) l) else 0).
Proof.
  induction l as [|p l IH]; intros acc acc' H.
  - simpl in H. inversion H; subst. unfold in_bounds, size. simpl.
    destruct (negb (fDo_avgspe cfg) && negb (fDo_amp cfg)); repeat split; lia.
  - simpl foldM in H. apply NoiseMore.bind_Ok in H. destruct H as (a1 & Hb & H).
    apply IH in H. unfold plain_body in Hb. unfold in_bounds in *. simpl filter.
    destruct (Shape.out_of_bounds cfg (size wvfm) p); simpl negb; cbv iota.
    + inversion Hb; subst. exact H.
    + apply NoiseMore.bind_Ok in Hb. destruct Hb as (i0 & _ & Hb).
      apply NoiseMore.bind_Ok in Hb. destruct Hb as (i1 & _ & Hb).
      apply NoiseMore.bind_Ok in Hb. destruct Hb as (i2 & _ & Hb).
      inversion Hb; subst a1. clear Hb. simpl in H.
      destruct H as (H0 & H1 & H2 & H3 & H4 & H5 & Ha & Hm & Hn).
      unfold size in *. rewrite !length_app in *. simpl length in *.
      rewrite H3, H4, H5, Ha, Hm, Hn.
      destruct (negb (fDo_avgspe cfg) && negb (fDo_amp cfg));
        repeat split; lia.
Qed.

Lemma local_loop_Ok cfg icfg wvfm stdev (l : list Z) : forall acc acc',
  foldM (local_body cfg icfg wvfm stdev) l acc = Ok acc' ->
  fst acc' = fst acc /\
  integ0 (snd acc') = integ0 (snd acc) /\
  integ1 (snd acc') = integ1 (snd acc) /\
  integ2 (snd acc') = integ2 (snd acc) /\
  size (integ3 (snd acc')) =
    size (integ3 (snd acc)) + size (in_bounds cfg (size wvfm) l) /\
  size (integ4 (snd acc')) =
    size (integ4 (snd acc)) + size (in_bounds cfg (size wvfm) l) /\
  size (integ5 (snd acc')) =
    size (integ5 (snd acc)) + size (in_bounds cfg (size wvfm) l) /\
  Forall (fun p => 50 <= p /\ p + 50 < size wvfm) (in_bounds cfg (size wvfm) l).
Proof.
  induction l as [|p l IH]; intros acc acc' H.
  - simpl in H. inversion H; subst. unfold in_bounds, size. simpl.
    repeat split; try lia. constructor.
  - simpl foldM in H. apply NoiseMore.bind_Ok in H. destruct H as (a1 & Hb & H).
    apply IH in H. unfold local_body in Hb. unfold in_bounds in *. simpl filter.
    destruct (Shape.out_of_bounds cfg (size wvfm) p); simpl negb; cbv iota.
    + inversion Hb; subst. exact H.
    + apply NoiseMore.bind_Ok in Hb. destruct Hb as (vlo & Hlo & Hb).
      apply NoiseMore.bind_Ok in Hb. destruct Hb as (vhi & Hhi & Hb).
      apply NoiseMore.bind_Ok in Hb. destruct Hb as (i3 & _ & Hb).
      apply NoiseMore.bind_Ok in Hb. destruct Hb as (i4 & _ & Hb).
      apply NoiseMore.bind_Ok in Hb. destruct Hb as (i5 & _ & Hb).
      inversion Hb; subst a1. clear Hb. simpl in H.
      destruct H as (Hs & H0 & H1 & H2 & H3 & H4 & H5 & Hall).
      unfold at_ in Hlo, Hhi.
      destruct (lookupZ wvfm (p - 50)) eqn:Elo; [|discriminate].
      destruct (lookupZ wvfm (p + 50)) eqn:Ehi; [|discriminate].
      apply lookupZ_Some_range in Elo. apply lookupZ_Some_range in Ehi.
      unfold size in *. rewrite !length_app in *. simpl length in *.
      rewrite Hs, H0, H1, H2.
      repeat split; try lia. constructor; [lia|exact Hall].
Qed.

(** What the integral stage does when it ends normally: each of the six
    integral histograms of the slot gains one value for each peak that
    passes the boundary check; the running sum and the amplitudes are not
    touched; the pulse counter grows by the number of these peaks only
    when both the shape and the amplitude analyses are off.  The local
    baseline is read 50 bins on either side of the peak without regard to
    the configured window, so the stage ends normally only if every peak
    that passes the boundary check lies at least 50 bins from both ends of
    the waveform. *)
Theorem integral_stage_fills_six_histograms_per_peak
  (cfg : Config) (icfg : IntegConfig) (wvfm : list float) (stdev : float)
  (wvf_spet : list Z) (acc acc' : Slot * Integs) :
  fDo_integ icfg = true ->
  stage cfg icfg wvfm stdev wvf_spet acc = Ok acc' ->
  let n := size (in_bounds cfg (size wvfm) wvf_spet) in
  size (integ0 (snd acc')) = size (integ0 (snd acc)) + n /\
  size (integ1 (snd acc')) = size (integ1 (snd acc)) + n /\
  size (integ2 (snd acc')) = size (integ2 (snd acc)) + n /\
  size (integ3 (snd acc')) = size (integ3 (snd acc)) + n /\
  size (integ4 (snd acc')) = size (integ4 (snd acc)) + n /\
  size (integ5 (snd acc')) = size (integ5 (snd acc)) + n /\
  avgspe (fst acc') = avgspe (fst acc) /\
  amp (fst acc') = amp (fst acc) /\
  navspes (fst acc') =
    navspes (fst acc) +
    (if negb (fDo_avgspe cfg) && negb (fDo_amp cfg) then n else 0) /\
  Forall (fun p => 50 <= p /\ p + 50 < size wvfm)
         (in_bounds cfg (size wvfm) wvf_spet).
Proof.
  intros Hd H n. unfold stage in H. rewrite Hd in H.
  apply NoiseMore.bind_Ok in H. destruct H as (acc1 & Hp & Hl).
  apply plain_loop_Ok in Hp. apply local_loop_Ok in Hl.
  destruct Hp as (P0 & P1 & P2 & P3 & P4 & P5 & Pa & Pm & Pn).
  destruct Hl as (Ls & L0 & L1 & L2 & L3 & L4 & L5 & Lall).
  subst n. rewrite Ls, L0, L1, L2, L3, L4, L5, <- P3, <- P4, <- P5.
  repeat split; auto.
Qed.

Lemma integral_stage_fills_six_histograms_per_peak_witness :
  let acc := (new_slot scan_all, no_integs) in
  let acc' := (new_slot scan_all, long_bump_integs) in
  let n := size (in_bounds scan_all (size long_bump) [1; 61]) in
  size (integ0 (snd acc')) = size (integ0 (snd acc)) + n /\
  size (integ1 (snd acc')) = size (integ1 (snd acc)) + n /\
  size (integ2 (snd acc')) = size (integ2 (snd acc)) + n /\
  size (integ3 (snd acc')) = size (integ3 (snd acc)) + n /\
  size (integ4 (snd acc')) = size (integ4 (snd acc)) + n /\
  size (integ5 (snd acc')) = size (integ5 (snd acc)) + n /\
  avgspe (fst acc') = avgspe (fst acc) /\
  amp (fst acc') = amp (fst acc) /\
  navspes (fst acc') =
    navspes (fst acc) +
    (if negb (fDo_avgspe scan_all) && negb (fDo_amp scan_all) then n else 0) /\
  Forall (fun p => 50 <= p /\ p + 50 < size long_bump)
         (in_bounds scan_all (size long_bump) [1; 61]).
Proof.
  apply (integral_stage_fills_six_histograms_per_peak scan_all manual_1_2
           long_bump 1 [1; 61] (new_slot scan_all, no_integs)
           (new_slot scan_all, long_bump_integs)).
  - reflexivity.
  - vm_compute. reflexivity.
Defined.

End IntegralMore.


(** ** Further facts on the normalisation *)

Module EndJobMore.
Import EndJob Inputs.

Lemma GetSize_normalise_loop (d : Z) (l : list Z) : forall h,
  TH1D.GetSize (fold_left (normalise_bin d) l h) = TH1D.GetSize h.
Proof.
  induction l as [|ix l IH]; intros h; simpl; [reflexivity|].
  rewrite IH. apply EndJobClaims.GetSize_normalise_bin.
Qed.

(** What [endJob] leaves alone: the number of slots and, in each slot,
    the amplitudes, the pulse count, the number of cells of the running
    sum and its underflow cell, which the loop from bin 1 never
    visits. *)
Theorem endJob_keeps_the_amplitudes_and_the_underflow_cell
  (slots : list Slot) (ihist : nat) (s : Slot) :
  nth_error slots ihist = Some s ->
  0 < TH1D.GetSize (avgspe s) ->
  length (endJob slots) = length slots /\
  exists s',
    nth_error (endJob slots) ihist = Some s' /\
    amp s' = amp s /\
    navspes s' = navspes s /\
    TH1D.GetSize (avgspe s') = TH1D.GetSize (avgspe s) /\
    TH1D.GetBinContent (avgspe s') 0 = TH1D.GetBinContent (avgspe s) 0.
Proof.
  intros Hs Hn. split; [apply length_map|].
  exists (normalise s). split.
  - unfold endJob. rewrite nth_error_map, Hs. reflexivity.
  - unfold normalise. simpl. repeat split.
    + apply GetSize_normalise_loop.
    + unfold range_le. rewrite EndJobClaims.normalise_loop by lia.
      reflexivity.
Qed.

Lemma endJob_keeps_the_amplitudes_and_the_underflow_cell_witness :
  length (endJob [new_slot flat_cfg]) = length [new_slot flat_cfg] /\
  exists s',
    nth_error (endJob [new_slot flat_cfg]) 0 = Some s' /\
    amp s' = amp (new_slot flat_cfg) /\
    navspes s' = navspes (new_slot flat_cfg) /\
    TH1D.GetSize (avgspe s') = TH1D.GetSize (avgspe (new_slot flat_cfg)) /\
    TH1D.GetBinContent (avgspe s') 0 =
      TH1D.GetBinContent (avgspe (new_slot flat_cfg)) 0.
Proof.
  apply (endJob_keeps_the_amplitudes_and_the_underflow_cell
           [new_slot flat_cfg] 0 (new_slot flat_cfg)).
  - reflexivity.
  - vm_compute. reflexivity.
Defined.

End EndJobMore.

(** ** Further facts on the PMT index *)

Module IndexMore.
Import Index MoreSpec MoreInputs.

Lemma lookupZ_head {A : Type} (x : A) (v : list A) : lookupZ (x :: v) 0 = Some x.
Proof. reflexivity. Qed.

Lemma lookupZ_tail {A : Type} (x : A) (v : list A) (i : Z) :
  0 < i -> lookupZ (x :: v) i = lookupZ v (i - 1).
Proof.
  intros Hi. unfold lookupZ.
  destruct (i <? 0) eqn:E; [apply Z.ltb_lt in E; lia|].
  destruct (i - 1 <? 0) eqn:E1; [apply Z.ltb_lt in E1; lia|].
  replace (Z.to_nat i) with (S (Z.to_nat (i - 1))) by lia. reflexivity.
Qed.

Lemma lookupZ_negative {A : Type} (v : list A) (i : Z) :
  i < 0 -> lookupZ v i = None.
Proof.
  intros Hi. unfold lookupZ.
  destruct (i <? 0) eqn:E; [reflexivity|apply Z.ltb_ge in E; lia].
Qed.

Lemma lookupZ_after {A : Type} (done : list A) : forall rest,
  lookupZ (done ++ rest) (size done) = lookupZ rest 0.
Proof.
  induction done as [|d done IH]; intros rest; [reflexivity|].
  simpl app. rewrite lookupZ_tail by (unfold size; simpl length; lia).
  replace (size (d :: done) - 1) with (size done)
    by (unfold size; simpl length; lia).
  apply IH.
Qed.

Lemma GetPMTIndex_from_cases (ch : Z) (v : list Z) : forall k,
  (GetPMTIndex_from v k ch = -1 /\ ~ In ch v) \/
  (exists i, GetPMTIndex_from v k ch = k + i /\ 0 <= i < size v /\
             lookupZ v i = Some ch /\
             forall j, 0 <= j < i -> lookupZ v j <> Some ch).
Proof.
  induction v as [|x v IH]; intros k; simpl.
  - left. split; [reflexivity|tauto].
  - destruct (x =? ch) eqn:E.
    + apply Z.eqb_eq in E. subst x. right. exists 0.
      unfold size. simpl length. repeat split; try lia.
    + apply Z.eqb_neq in E.
      destruct (IH (k + 1)) as [[H1 H2]|(i & H1 & H2 & H3 & H4)].
      * left. split; [assumption|]. intros [H|H]; [congruence|tauto].
      * right. exists (i + 1). unfold size in *. simpl length.
        repeat split; try lia.
        -- rewrite lookupZ_tail by lia.
           replace (i + 1 - 1) with i by lia. assumption.
        -- intros j Hj. destruct (Z.eq_dec j 0) as [->|Hn].
           ++ rewrite lookupZ_head. congruence.
           ++ rewrite lookupZ_tail by lia. apply H4. lia.
Qed.

(** [GetPMTIndex] returns the first position of the channel in
    [PMTIndexingVector], and -1 exactly when the channel is not in it. *)
Theorem GetPMTIndex_is_the_first_position (v : list Z) (wvf_ch : Z) :
  (GetPMTIndex v wvf_ch = -1 /\ ~ In wvf_ch v) \/
  (0 <= GetPMTIndex v wvf_ch < size v /\
   lookupZ v (GetPMTIndex v wvf_ch) = Some wvf_ch /\
   forall j, 0 <= j < GetPMTIndex v wvf_ch -> lookupZ v j <> Some wvf_ch).
Proof.
  unfold GetPMTIndex.
  destruct (GetPMTIndex_from_cases wvf_ch v 0) as [H|(i & H1 & H2 & H3 & H4)].
  - left. exact H.
  - right. rewrite H1. simpl. repeat split; try lia; assumption.
Qed.

Lemma GetPMTIndex_sorted (v : list Z) (i ch : Z) :
  StronglySorted Z.lt v -> lookupZ v i = Some ch -> GetPMTIndex v ch = i.
Proof.
  intros Hs Hl. unfold GetPMTIndex.
  destruct (GetPMTIndex_from_cases ch v 0) as [[_ H]|(j & H1 & H2 & H3 & H4)].
  - exfalso. apply H. eapply lookupZ_Some_In. eassumption.
  - rewrite H1. simpl.
    assert (Hi := lookupZ_Some_range _ _ _ Hl).
    destruct (Z.lt_trichotomy i j) as [Hlt|[Heq|Hgt]]; [|auto|].
    + exfalso. apply (H4 i); [lia|assumption].
    + exfalso. clear H1 H4. revert i j Hl H3 Hi H2 Hgt.
      induction Hs as [|a l Hs IH Ha]; intros i j Hl H3 Hi H2 Hgt.
      * unfold size in H2. simpl in H2. lia.
      * destruct (Z.eq_dec j 0) as [->|Hj].
        -- rewrite lookupZ_head in H3. inversion H3; subst a.
           rewrite lookupZ_tail in Hl by lia.
           apply lookupZ_Some_In in Hl.
           rewrite Forall_forall in Ha. apply Ha in Hl. lia.
        -- rewrite lookupZ_tail in H3, Hl by lia.
           apply (IH (i - 1) (j - 1)); try assumption;
             unfold size in *; simpl length in *; lia.
Qed.

Section Constructor.

Variable is_xarapuca : Z -> bool.
Variable fUseAllPMTs : bool.
Variable fSelectedPMTs : list Z.

Lemma loop_listed (n : nat) : forall lo c c',
  0 <= lo ->
  loop is_xarapuca fUseAllPMTs fSelectedPMTs (zseq lo n) c = Ok c' ->
  listed is_xarapuca lo (PMTIndexingVector c) ->
  listed is_xarapuca (lo + Z.of_nat n) (PMTIndexingVector c').
Proof.
  assert (W : forall lo hi v, lo <= hi ->
            listed is_xarapuca lo v -> listed is_xarapuca hi v).
  { intros lo hi v Hle [Hs Hf]. split; [assumption|].
    eapply Forall_impl; [|exact Hf]. simpl. intros a [Ha Hx]. split; [lia|auto]. }
  induction n as [|n IH]; intros lo c c' Hlo H Hc.
  - simpl in H. inversion H; subst. apply (W lo); [lia|assumption].
  - simpl loop in H. apply NoiseMore.bind_Ok in H. destruct H as (r & Hb & H).
    assert (Hr : listed is_xarapuca (lo + 1) (PMTIndexingVector (fst r))).
    { unfold body in Hb. destruct (is_xarapuca lo) eqn:Ex.
      - inversion Hb; subst. simpl. apply (W lo); [lia|assumption].
      - apply NoiseMore.bind_Ok in Hb. destruct Hb as (w & _ & Hb).
        inversion Hb; subst r. clear Hb. simpl. destruct w; simpl.
        + destruct Hc as [Hs Hf]. split.
          * apply ScanOrder.sorted_snoc; [assumption|].
            eapply Forall_impl; [|exact Hf]. simpl. intros; lia.
          * apply Forall_app. split.
            -- eapply Forall_impl; [|exact Hf]. simpl.
               intros a [Ha Hx]. split; [lia|auto].
            -- constructor; [split; [lia|assumption]|constructor].
        + apply (W lo); [lia|assumption]. }
    destruct (snd r).
    + inversion H; subst. apply (W (lo + 1)); [lia|assumption].
    + apply IH in H; [|lia|assumption].
      replace (lo + Z.of_nat (S n)) with (lo + 1 + Z.of_nat n) by lia.
      assumption.
Qed.

(** When the constructor completes, [PMTIndexingVector] lists channels
    between 0 and 311 that are no X-ARAPUCA, each once and in increasing
    order, whatever the selection; [GetPMTIndex] then gives back the
    position of each of them, so a histogram slot belongs to one channel
    only. *)
Theorem index_vector_is_increasing_and_inverted_by_GetPMTIndex (v : list Z) :
  build is_xarapuca fUseAllPMTs fSelectedPMTs = Ok v ->
  StronglySorted Z.lt v /\
  Forall (fun ch => 0 <= ch < NPDS /\ is_xarapuca ch = false) v /\
  forall i ch, lookupZ v i = Some ch -> GetPMTIndex v ch = i.
Proof.
  intros H. unfold build in H.
  apply NoiseMore.bind_Ok in H. destruct H as (c & Hl & H).
  inversion H; subst v. clear H.
  unfold range_lt in Hl. apply loop_listed in Hl; [|lia|].
  - destruct Hl as [Hs Hf]. split; [assumption|]. split.
    + exact Hf.
    + intros i ch. apply GetPMTIndex_sorted. assumption.
  - simpl. split; constructor.
Qed.

Lemma loop_all (l : list Z) : forall c,
  exists c',
    loop is_xarapuca true fSelectedPMTs l c = Ok c' /\
    PMTIndexingVector c' =
      PMTIndexingVector c ++ filter (fun ch => negb (is_xarapuca ch)) l.
Proof.
  induction l as [|x l IH]; intros c; simpl.
  - exists c. rewrite app_nil_r. auto.
  - unfold body, wanted. destruct (is_xarapuca x); simpl.
    + apply IH.
    + destruct (IH {| PMTIndexingVector := PMTIndexingVector c ++ [x];
                      tot_pmt_counter := tot_pmt_counter c + 1;
                      sel_pmt_counter := sel_pmt_counter c + 1 |})
        as (c' & H1 & H2).
      exists c'. split; [assumption|]. rewrite H2. simpl.
      rewrite <- app_assoc. reflexivity.
Qed.

(** With [UseAllPMTs] set the constructor completes and keeps every
    channel between 0 and 311 that is no X-ARAPUCA; the selection is not
    read. *)
Theorem all_pmts_are_indexed_when_all_are_used :
  fUseAllPMTs = true ->
  build is_xarapuca fUseAllPMTs fSelectedPMTs = Ok (pmts is_xarapuca).
Proof.
  intros Hu. unfold build. rewrite Hu.
  destruct (loop_all (range_lt 0 NPDS)
              {| PMTIndexingVector := []; tot_pmt_counter := 0;
                 sel_pmt_counter := 0 |}) as (c' & H1 & H2).
  rewrite H1. simpl. rewrite H2. reflexivity.
Qed.

Lemma picks_none (t : Z) (sel : list Z) : picks [] t sel = [].
Proof.
  induction sel as [|s sel IH]; [reflexivity|].
  unfold picks in *. simpl. rewrite IH.
  unfold lookupZ. destruct (s - t <? 0); [reflexivity|].
  destruct (Z.to_nat (s - t)); reflexivity.
Qed.

Lemma picks_cons (pm : list Z) (t s : Z) (sel : list Z) :
  picks pm t (s :: sel) =
  match lookupZ pm (s - t) with Some ch => [ch] | None => [] end
  ++ picks pm t sel.
Proof. reflexivity. Qed.

Local Arguments picks : simpl never.

Lemma picks_later (x : Z) (pm : list Z) (t : Z) (sel : list Z) :
  Forall (fun s => t < s) sel -> picks (x :: pm) t sel = picks pm (t + 1) sel.
Proof.
  induction 1 as [|s sel Hs _ IH]; [reflexivity|].
  unfold picks in *. simpl. rewrite IH.
  rewrite lookupZ_tail by lia.
  replace (s - t - 1) with (s - (t + 1)) by lia. reflexivity.
Qed.

Lemma loop_selected (l : list Z) : forall c done rest,
  fSelectedPMTs = done ++ rest -> rest <> [] ->
  sel_pmt_counter c = size done ->
  StronglySorted Z.lt rest ->
  Forall (fun s => tot_pmt_counter c <= s) rest ->
  exists c',
    loop is_xarapuca false fSelectedPMTs l c = Ok c' /\
    PMTIndexingVector c' =
      PMTIndexingVector c ++
      picks (filter (fun ch => negb (is_xarapuca ch)) l) (tot_pmt_counter c) rest.
Proof.
  induction l as [|x l IH]; intros c done rest Hsel Hne Hc Hs Hf.
  - simpl. exists c. rewrite picks_none, app_nil_r. auto.
  - simpl loop. simpl filter. unfold body at 1.
    destruct (is_xarapuca x) eqn:Ex; simpl negb; cbv iota.
    { simpl bind. cbv iota. eapply IH; eauto. }
    destruct rest as [|s rest']; [congruence|].
    assert (Hw : lookupZ fSelectedPMTs (sel_pmt_counter c) = Some s)
      by (rewrite Hsel, Hc, lookupZ_after; apply lookupZ_head).
    unfold wanted. simpl negb. cbv iota. unfold index.
    rewrite Hw. simpl bind.
    apply StronglySorted_inv in Hs. destruct Hs as [Hs' Hlt].
    assert (Hts := Forall_inv Hf). simpl in Hts.
    assert (Hf' := Forall_inv_tail Hf).
    assert (Hsize : size fSelectedPMTs = size done + 1 + size rest').
    { rewrite Hsel. unfold size. rewrite length_app. simpl length. lia. }
    destruct (s =? tot_pmt_counter c) eqn:E; simpl.
    + apply Z.eqb_eq in E. subst s.
      destruct rest' as [|s' rest''].
      * destruct (_ <=? _) eqn:L;
          [|apply Z.leb_gt in L; unfold size in *; simpl length in *; lia].
        simpl. eexists. split; [reflexivity|]. simpl.
        unfold picks. simpl. rewrite Z.sub_diag, lookupZ_head. reflexivity.
      * destruct (_ <=? _) eqn:L;
          [apply Z.leb_le in L; unfold size in *; simpl length in *; lia|].
        simpl.
        match goal with |- context [loop _ _ _ l ?c1] =>
          destruct (IH c1 (done ++ [tot_pmt_counter c]) (s' :: rest''))
            as (c' & H1 & H2) end.
        -- rewrite <- app_assoc. exact Hsel.
        -- discriminate.
        -- simpl. unfold size. rewrite length_app. simpl length.
           unfold size in Hc. lia.
        -- exact Hs'.
        -- simpl. eapply Forall_impl; [|exact Hlt]. simpl. intros; lia.
        -- exists c'. split; [exact H1|]. rewrite H2. simpl.
           rewrite <- app_assoc. f_equal.
           rewrite (picks_cons (x :: _) _ (tot_pmt_counter c)).
           rewrite Z.sub_diag, lookupZ_head. simpl app. f_equal.
           symmetry. apply picks_later. exact Hlt.
    + apply Z.eqb_neq in E.
      destruct (_ <=? _) eqn:L;
        [apply Z.leb_le in L; unfold size in *; simpl length in *; lia|].
      simpl.
      match goal with |- context [loop _ _ _ l ?c1] =>
        destruct (IH c1 done (s :: rest')) as (c' & H1 & H2) end; auto.
      * constructor; assumption.
      * simpl. constructor; [lia|].
        eapply Forall_impl; [|exact Hlt]. simpl. intros; lia.
      * exists c'. split; [exact H1|]. rewrite H2. simpl.
        f_equal. symmetry. apply picks_later.
        constructor; [lia|].
        eapply Forall_impl; [|exact Hlt]. simpl. intros; lia.
Qed.

(** With [UseAllPMTs] off, [SelectedPMTs] lists ordinal numbers among the
    PMTs, the X-ARAPUCA channels not counted: for a selection that is not
    empty and is in increasing order the constructor completes and keeps
    the PMT channel at each listed ordinal number, in the order listed;
    an ordinal number past the last PMT selects nothing. *)
Theorem selection_keeps_the_pmts_at_the_listed_ordinals :
  fUseAllPMTs = false ->
  fSelectedPMTs <> [] ->
  StronglySorted Z.lt fSelectedPMTs ->
  Forall (fun s => 0 <= s) fSelectedPMTs ->
  build is_xarapuca fUseAllPMTs fSelectedPMTs
    = Ok (picks (pmts is_xarapuca) 0 fSelectedPMTs).
Proof.
  intros Hu Hne Hs Hf. unfold build. rewrite Hu.
  destruct (loop_selected (range_lt 0 NPDS)
              {| PMTIndexingVector := []; tot_pmt_counter := 0;
                 sel_pmt_counter := 0 |} [] fSelectedPMTs)
    as (c' & H1 & H2); auto.
  rewrite H1. simpl. rewrite H2. reflexivity.
Qed.

Lemma loop_unselected (l : list Z) : forall c,
  fSelectedPMTs = [] ->
  filter (fun ch => negb (is_xarapuca ch)) l <> [] ->
  loop is_xarapuca false fSelectedPMTs l c = Undefined.
Proof.
  induction l as [|x l IH]; intros c Hsel Hne; simpl in *; [congruence|].
  unfold body. destruct (is_xarapuca x); simpl in *.
  - apply IH; assumption.
  - unfold wanted, index. rewrite Hsel. unfold lookupZ.
    destruct (sel_pmt_counter c <? 0); [reflexivity|].
    destruct (Z.to_nat (sel_pmt_counter c)); reflexivity.
Qed.

(** With [UseAllPMTs] off and an empty [SelectedPMTs], the constructor
    reads the first entry of the empty selection at the first PMT it
    meets: it has no defined result as soon as one channel is no
    X-ARAPUCA. *)
Theorem empty_selection_is_read_out_of_bounds :
  fUseAllPMTs = false ->
  fSelectedPMTs = [] ->
  pmts is_xarapuca <> [] ->
  build is_xarapuca fUseAllPMTs fSelectedPMTs = Undefined.
Proof.
  intros Hu Hsel Hne. unfold build. rewrite Hu.
  rewrite loop_unselected; auto.
Qed.

End Constructor.

Lemma index_vector_is_increasing_and_inverted_by_GetPMTIndex_witness :
  StronglySorted Z.lt [1; 5; 11] /\
  Forall (fun ch => 0 <= ch < NPDS /\ even_is_xarapuca ch = false) [1; 5; 11] /\
  forall i ch, lookupZ [1; 5; 11] i = Some ch -> GetPMTIndex [1; 5; 11] ch = i.
Proof.
  apply (index_vector_is_increasing_and_inverted_by_GetPMTIndex
           even_is_xarapuca false [0; 2; 5] [1; 5; 11]).
  vm_compute. reflexivity.
Defined.

Lemma all_pmts_are_indexed_when_all_are_used_witness :
  build even_is_xarapuca true [] = Ok (pmts even_is_xarapuca).
Proof.
  apply (all_pmts_are_indexed_when_all_are_used even_is_xarapuca true []).
  reflexivity.
Defined.

Lemma selection_keeps_the_pmts_at_the_listed_ordinals_witness :
  build even_is_xarapuca false [0; 2; 5; 400] = Ok [1; 5; 11].
Proof.
  apply (selection_keeps_the_pmts_at_the_listed_ordinals
           even_is_xarapuca false [0; 2; 5; 400]).
  - reflexivity.
  - discriminate.
  - repeat constructor.
  - repeat constructor; lia.
Defined.

Lemma empty_selection_is_read_out_of_bounds_witness :
  build even_is_xarapuca false [] = Undefined.
Proof.
  apply (empty_selection_is_read_out_of_bounds even_is_xarapuca false []).
  - reflexivity.
  - reflexivity.
  - vm_compute. discriminate.
Defined.

End IndexMore.

(** ** Further facts on the waveform loop *)

Module EventMore.
Import Event MoreSpec Inputs MoreInputs Detectors.

Lemma shape_loop_count cfg wvfm (all l : list Z) : forall s s',
  foldM (Shape.peak_body cfg wvfm all) l s = Ok s' ->
  navspes s' = navspes s + size (in_bounds cfg (size wvfm) l).
Proof.
  induction l as [|p l IH]; intros s s' H.
  - simpl in H. inversion H; subst. unfold in_bounds, size. simpl. lia.
  - simpl foldM in H. apply NoiseMore.bind_Ok in H. destruct H as (s1 & Hb & H).
    apply IH in H. unfold Shape.peak_body in Hb. unfold in_bounds in *.
    simpl filter.
    destruct (Shape.out_of_bounds cfg (size wvfm) p); simpl negb; cbv iota.
    + inversion Hb; subst. exact H.
    + rewrite ShapeClaims.selected_always in Hb.
      apply NoiseMore.bind_Ok in Hb. destruct Hb as (h & _ & Hb).
      inversion Hb; subst s1. simpl in H.
      unfold size in *. simpl length. lia.
Qed.

Lemma amp_loop_count cfg wvfm (l : list Z) : forall s s',
  foldM (Amplitude.peak_body cfg wvfm) l s = Ok s' ->
  navspes s' =
    navspes s + (if negb (fDo_avgspe cfg) then size l else 0).
Proof.
  induction l as [|p l IH]; intros s s' H.
  - simpl in H. inversion H; subst. unfold size. simpl.
    destruct (negb (fDo_avgspe cfg)); lia.
  - simpl foldM in H. apply NoiseMore.bind_Ok in H. destruct H as (s1 & Hb & H).
    apply IH in H. unfold Amplitude.peak_body in Hb.
    apply NoiseMore.bind_Ok in Hb. destruct Hb as (h & _ & Hb).
    inversion Hb; subst s1. simpl in H. unfold size in *. simpl length.
    destruct (negb (fDo_avgspe cfg)); lia.
Qed.

Lemma stages_count cfg icfg wvfm stdev (wvf_spet : list Z) slot g slot1 slot2 acc' :
  Shape.stage cfg wvfm wvf_spet slot = Ok slot1 ->
  Amplitude.stage cfg wvfm wvf_spet slot1 = Ok slot2 ->
  Integral.stage cfg icfg wvfm stdev wvf_spet (slot2, g) = Ok acc' ->
  navspes (fst acc') =
    navspes slot +
    (if fDo_avgspe cfg then size (in_bounds cfg (size wvfm) wvf_spet)
     else if fDo_amp cfg then size wvf_spet
     else if fDo_integ icfg then size (in_bounds cfg (size wvfm) wvf_spet)
     else 0).
Proof.
  unfold Shape.stage, Amplitude.stage, Integral.stage. intros H1 H2 H3.
  assert (E1 : navspes slot1 = navspes slot +
            (if fDo_avgspe cfg then size (in_bounds cfg (size wvfm) wvf_spet) else 0)).
  { destruct (fDo_avgspe cfg).
    - apply shape_loop_count in H1. exact H1.
    - inversion H1; subst. lia. }
  assert (E2 : navspes slot2 = navspes slot1 +
            (if fDo_amp cfg
             then if negb (fDo_avgspe cfg) then size wvf_spet else 0
             else 0)).
  { destruct (fDo_amp cfg).
    - apply amp_loop_count in H2. exact H2.
    - inversion H2; subst. lia. }
  assert (E3 : navspes (fst acc') = navspes slot2 +
            (if fDo_integ icfg
             then if negb (fDo_avgspe cfg) && negb (fDo_amp cfg)
                  then size (in_bounds cfg (size wvfm) wvf_spet) else 0
             else 0)).
  { destruct (fDo_integ icfg).
    - apply NoiseMore.bind_Ok in H3. destruct H3 as (a1 & Hp & Hl).
      apply IntegralMore.plain_loop_Ok in Hp.
      apply IntegralMore.local_loop_Ok in Hl.
      destruct Hp as (_ & _ & _ & _ & _ & _ & _ & _ & Hn).
      destruct Hl as (Hs & _). rewrite Hs, Hn. reflexivity.
    - inversion H3; subst. simpl. lia. }
  rewrite E3, E2, E1.
  destruct (fDo_avgspe cfg), (fDo_amp cfg), (fDo_integ icfg); simpl; lia.
Qed.

Lemma failed_step wvfm_size thr adc (f0 : Z) s :
  f0 <= Scan.failed s ->
  f0 <= Scan.failed (Scan.finish (fst (Scan.branch wvfm_size thr thr adc s))).
Proof.
  unfold Scan.branch. intros H.
  destruct (negb (Scan.fire s) && (thr <? adc)%float); simpl.
  { destruct (Scan.peak_count s =? 200); lia. }
  destruct (Scan.fire s && (adc <? thr)%float); simpl.
  { destruct (_ >? 2); destruct (_ =? 200); lia. }
  destruct (Scan.fire s); [destruct (Scan.pulse_peak s <? adc)%float|]; simpl;
    destruct (Scan.peak_count s =? 200); lia.
Qed.

Lemma run_failed_grows cfg wvfm thr failed0 s evs :
  Scan.run cfg wvfm thr failed0 = Ok (s, evs) -> failed0 <= Scan.failed s.
Proof.
  intros H. apply ScanMore.run_Ok in H. destruct H as (s1 & L & ->).
  rewrite ScanMore.flush_failed.
  eapply (ScanMore.invariant_loop (fun s => failed0 <= Scan.failed s)); eauto.
  - intros. apply failed_step. assumption.
  - simpl. lia.
Qed.

(** Unfolds the body of the waveform loop into its stages. *)
Lemma body_stages cfg icfg wvf acc t acc' t' :
  body cfg icfg wvf acc t = Ok (acc', t') ->
  exists r s evs,
    Noise.analysis cfg wvf = Ok r /\
    Scan.run cfg (Noise.wvfm r) (Noise.thresh r) (Analyze.failed t)
      = Ok (s, evs) /\
    if Scan.peak_count s =? 0
    then acc' = acc /\
         Analyze.success t' = Analyze.success t /\
         Analyze.failed t' = Scan.failed s + 1
    else (exists slot1 slot2,
            Shape.stage cfg (Noise.wvfm r) (Scan.pulse_t_peak_v s) (fst acc)
              = Ok slot1 /\
            Amplitude.stage cfg (Noise.wvfm r) (Scan.pulse_t_peak_v s) slot1
              = Ok slot2 /\
            Integral.stage cfg icfg (Noise.wvfm r) (Noise.stdev r)
                           (Scan.pulse_t_peak_v s) (slot2, snd acc) = Ok acc') /\
         Analyze.success t' = Analyze.success t + 1 /\
         Analyze.failed t' = Scan.failed s.
Proof.
  unfold body. intros H.
  apply NoiseMore.bind_Ok in H. destruct H as (r & Hr & H).
  apply NoiseMore.bind_Ok in H. destruct H as ([s evs] & Hs & H).
  exists r, s, evs. split; [assumption|]. split; [assumption|].
  simpl fst in H. destruct (Scan.peak_count s =? 0).
  - inversion H; subst. simpl. auto.
  - apply NoiseMore.bind_Ok in H. destruct H as (slot1 & H1 & H).
    apply NoiseMore.bind_Ok in H. destruct H as (slot2 & H2 & H).
    apply NoiseMore.bind_Ok in H. destruct H as (a3 & H3 & H).
    inversion H; subst. simpl. repeat split; eauto.
Qed.

(** One waveform through the body of the loop.  A waveform in which the
    scan finds no pulse leaves the histograms of its channel as they were
    and adds one to the failure tally the scan left.  Otherwise the
    success tally grows by one, and the pulse counter of the slot, which
    [endJob] divides by, grows once for each pulse whatever analyses are
    on: by the number of peaks that pass the boundary check when the
    shape analysis is on, else by the number of all peaks when the
    amplitude analysis is on, else by the number of peaks that pass the
    check when the integral analysis is on, and not at all when none
    is. *)
Theorem waveform_counts_each_pulse_once
  (cfg : Config) (icfg : IntegConfig) (wvf : list Z) (acc acc' : Slot * Integs)
  (t t' : Analyze.Tally) :
  body cfg icfg wvf acc t = Ok (acc', t') ->
  exists r s evs,
    Noise.analysis cfg wvf = Ok r /\
    Scan.run cfg (Noise.wvfm r) (Noise.thresh r) (Analyze.failed t)
      = Ok (s, evs) /\
    if Scan.peak_count s =? 0
    then acc' = acc /\
         Analyze.success t' = Analyze.success t /\
         Analyze.failed t' = Scan.failed s + 1
    else navspes (fst acc') =
           navspes (fst acc) +
           (if fDo_avgspe cfg
            then size (in_bounds cfg (size (Noise.wvfm r)) (Scan.pulse_t_peak_v s))
            else if fDo_amp cfg then size (Scan.pulse_t_peak_v s)
            else if fDo_integ icfg
            then size (in_bounds cfg (size (Noise.wvfm r)) (Scan.pulse_t_peak_v s))
            else 0) /\
         Analyze.success t' = Analyze.success t + 1 /\
         Analyze.failed t' = Scan.failed s.
Proof.
  intros H. apply body_stages in H. destruct H as (r & s & evs & Hr & Hs & H).
  exists r, s, evs. split; [exact Hr|]. split; [exact Hs|].
  destruct (Scan.peak_count s =? 0); [exact H|].
  destruct H as ((slot1 & slot2 & H1 & H2 & H3) & Hsucc & Hfail).
  split; [|split; assumption].
  exact (stages_count cfg icfg (Noise.wvfm r) (Noise.stdev r)
           (Scan.pulse_t_peak_v s) (fst acc) (snd acc) slot1 slot2 acc'
           H1 H2 H3).
Qed.

(** With the integral analysis off the body of the loop is
    [Analyze.analyze_waveform], and the integral histograms are as they
    were. *)
Lemma body_without_integrals cfg icfg wvf slot g t :
  fDo_integ icfg = false ->
  body cfg icfg wvf (slot, g) t =
  (r <- Analyze.analyze_waveform cfg wvf slot t ;; Ok ((fst r, g), snd r)).
Proof.
  intros Hd. unfold body, Analyze.analyze_waveform, Integral.stage.
  rewrite Hd. simpl fst. simpl snd.
  destruct (Noise.analysis cfg wvf) as [r| |]; simpl; try reflexivity.
  destruct (Scan.run _ _ _ _) as [[s evs]| |]; simpl; try reflexivity.
  destruct (Scan.peak_count s =? 0); simpl; [reflexivity|].
  destruct (Shape.stage _ _ _ _) as [s1| |]; simpl; try reflexivity.
  destruct (Amplitude.stage _ _ _ _) as [s2| |]; simpl; reflexivity.
Qed.

Lemma body_tally cfg icfg wvf acc t acc' t' :
  body cfg icfg wvf acc t = Ok (acc', t') ->
  Analyze.success t <= Analyze.success t' <= Analyze.success t + 1 /\
  Analyze.failed t <= Analyze.failed t'.
Proof.
  intros H. apply body_stages in H. destruct H as (r & s & evs & _ & Hs & H).
  apply run_failed_grows in Hs.
  destruct (Scan.peak_count s =? 0).
  - destruct H as (_ & H1 & H2). lia.
  - destruct H as (_ & H1 & H2). lia.
Qed.

Lemma length_replace {A : Type} (l : list A) : forall n a,
  length (replace l n a) = length l.
Proof.
  induction l as [|x l IH]; intros [|n] a; simpl; auto.
Qed.

Lemma nth_error_replace {A : Type} (l : list A) : forall n m a,
  n <> m -> nth_error (replace l n a) m = nth_error l m.
Proof.
  induction l as [|x l IH]; intros [|n] [|m] a H; simpl; auto; try congruence.
Qed.

Section Loop.

Variable pdType : Z -> String.string.
Variable fOpDetsToPlot : list String.string.
Variable PMTIndexingVector : list Z.
Variable cfg : Config.
Variable icfg : IntegConfig.

Lemma waveform_step_Ok st wvf st' :
  waveform_step pdType fOpDetsToPlot PMTIndexingVector cfg icfg st wvf = Ok st' ->
  size (slots st') = size (slots st) /\
  (forall i, Index.GetPMTIndex PMTIndexingVector (ChannelNumber wvf) <> i \/
             plotted pdType fOpDetsToPlot (ChannelNumber wvf) = false ->
             lookupZ (slots st') i = lookupZ (slots st) i) /\
  Analyze.success (tally st) <= Analyze.success (tally st')
    <= Analyze.success (tally st) + 1 /\
  Analyze.failed (tally st) <= Analyze.failed (tally st').
Proof.
  unfold waveform_step. intros H.
  destruct (Index.GetPMTIndex PMTIndexingVector (ChannelNumber wvf) =? -1).
  { inversion H; subst. repeat split; auto; lia. }
  destruct (plotted pdType fOpDetsToPlot (ChannelNumber wvf)) eqn:Ep; simpl negb in H;
    cbv iota in H.
  2:{ inversion H; subst. repeat split; auto; lia. }
  apply NoiseMore.bind_Ok in H. destruct H as (acc & Ha & H).
  apply NoiseMore.bind_Ok in H. destruct H as ([acc' t'] & Hb & H).
  inversion H; subst st'. clear H. simpl.
  apply body_tally in Hb.
  unfold index in Ha.
  destruct (lookupZ (slots st) _) eqn:El; [|discriminate].
  apply lookupZ_Some_range in El.
  split; [unfold size; rewrite length_replace; reflexivity|].
  split; [|lia].
  intros i [Hi|Hi]; [|discriminate].
  unfold lookupZ. destruct (i <? 0) eqn:E; [reflexivity|].
  apply Z.ltb_ge in E. apply nth_error_replace. lia.
Qed.

Lemma waveforms_Ok (waveforms : list Waveform) : forall st st',
  foldM (waveform_step pdType fOpDetsToPlot PMTIndexingVector cfg icfg)
        waveforms st = Ok st' ->
  size (slots st') = size (slots st) /\
  (forall i,
     (forall w, In w waveforms ->
                Index.GetPMTIndex PMTIndexingVector (ChannelNumber w) <> i \/
                plotted pdType fOpDetsToPlot (ChannelNumber w) = false) ->
     lookupZ (slots st') i = lookupZ (slots st) i) /\
  Analyze.success (tally st) <= Analyze.success (tally st')
    <= Analyze.success (tally st) + size waveforms /\
  Analyze.failed (tally st) <= Analyze.failed (tally st').
Proof.
  induction waveforms as [|w ws IH]; intros st st' H.
  - simpl in H. inversion H; subst. unfold size. simpl.
    repeat split; auto; lia.
  - simpl foldM in H. apply NoiseMore.bind_Ok in H. destruct H as (st1 & H1 & H).
    apply waveform_step_Ok in H1. apply IH in H.
    destruct H1 as (A1 & A2 & A3 & A4). destruct H as (B1 & B2 & B3 & B4).
    unfold size in *. simpl length.
    split; [lia|]. split; [|lia].
    intros i Hi. rewrite B2, A2; auto.
    + apply Hi. left. reflexivity.
    + intros w' Hw. apply Hi. right. assumption.
Qed.

(** One call of [analyze].  When it ends normally the job has as many
    slots as before, and the slot at an index that [GetPMTIndex] gives to
    none of the event's waveforms of a detector type to plot holds what it
    held: a waveform changes the histograms of its own channel only, and a
    waveform of a channel that is not indexed or of another detector type
    changes none.  Each waveform adds at most
    one to the success tally, and both tallies are not negative. *)
Theorem event_changes_only_the_slots_of_its_channels
  (waveforms : list Waveform) (job : list (Slot * Integs)) (st : State) :
  analyze pdType fOpDetsToPlot PMTIndexingVector cfg icfg waveforms job = Ok st ->
  size (slots st) = size job /\
  (forall i,
     (forall w, In w waveforms ->
                Index.GetPMTIndex PMTIndexingVector (ChannelNumber w) <> i \/
                plotted pdType fOpDetsToPlot (ChannelNumber w) = false) ->
     lookupZ (slots st) i = lookupZ job i) /\
  0 <= Analyze.success (tally st) <= size waveforms /\
  0 <= Analyze.failed (tally st).
Proof.
  unfold analyze. intros H. apply waveforms_Ok in H. simpl in H.
  destruct H as (H1 & H2 & H3 & H4). repeat split; auto; lia.
Qed.

End Loop.

Lemma waveform_counts_each_pulse_once_witness :
  exists acc' t',
    body scan_all manual_1_2 raw_long (new_slot scan_all, no_integs) no_tally
      = Ok (acc', t') /\
    exists r s evs,
      Noise.analysis scan_all raw_long = Ok r /\
      Scan.run scan_all (Noise.wvfm r) (Noise.thresh r) (Analyze.failed no_tally)
        = Ok (s, evs) /\
      if Scan.peak_count s =? 0
      then acc' = (new_slot scan_all, no_integs) /\
           Analyze.success t' = Analyze.success no_tally /\
           Analyze.failed t' = Scan.failed s + 1
      else navspes (fst acc') =
             navspes (fst (new_slot scan_all, no_integs)) +
             (if fDo_avgspe scan_all
              then size (in_bounds scan_all (size (Noise.wvfm r))
                                   (Scan.pulse_t_peak_v s))
              else if fDo_amp scan_all then size (Scan.pulse_t_peak_v s)
              else if fDo_integ manual_1_2
              then size (in_bounds scan_all (size (Noise.wvfm r))
                                   (Scan.pulse_t_peak_v s))
              else 0) /\
           Analyze.success t' = Analyze.success no_tally + 1 /\
           Analyze.failed t' = Scan.failed s.
Proof.
  eexists. eexists. split.
  - vm_compute. reflexivity.
  - apply (waveform_counts_each_pulse_once scan_all manual_1_2 raw_long
             (new_slot scan_all, no_integs) _ no_tally _).
    vm_compute. reflexivity.
Defined.

Lemma event_changes_only_the_slots_of_its_channels_witness :
  exists st,
    analyze all_coated plot_coated [1; 3; 5; 7] scan_all manual_1_2
            two_waveforms (Index.make_slots scan_all [1; 3; 5; 7]) = Ok st /\
    size (slots st) = size (Index.make_slots scan_all [1; 3; 5; 7]) /\
    (forall i,
       (forall w, In w two_waveforms ->
                  Index.GetPMTIndex [1; 3; 5; 7] (ChannelNumber w) <> i \/
                  plotted all_coated plot_coated (ChannelNumber w) = false) ->
       lookupZ (slots st) i =
       lookupZ (Index.make_slots scan_all [1; 3; 5; 7]) i) /\
    0 <= Analyze.success (tally st) <= size two_waveforms /\
    0 <= Analyze.failed (tally st).
Proof.
  eexists. split.
  - vm_compute. reflexivity.
  - apply (event_changes_only_the_slots_of_its_channels all_coated plot_coated
             [1; 3; 5; 7] scan_all manual_1_2 two_waveforms
             (Index.make_slots scan_all [1; 3; 5; 7])).
    vm_compute. reflexivity.
Defined.

End EventMore.
